(** * Crusader X multiplayer server (server/server.mjs)

    A shallow embedding of the authoritative state-sync and hit-resolution
    server: the segment-distance helper [pointLineDistance], the three
    registries ([players], [disconnectedPlayers], [playerLastSeen]), the
    laser buffer, the connection / update / laser-fire / disconnect
    handlers, the periodic sweeper and broadcasters, and the pending
    [setTimeout] callbacks that reset [recentlyHit].

    JavaScript numbers are IEEE-754 binary64 values.  The geometry code is
    written once over an interface [Number] and read at two instances:
    Rocq's primitive [float] (bit-exact, executable) and the real numbers
    [R] (exact arithmetic, used for the geometric statements). *)

From Stdlib Require Import ZArith List String Ascii Bool Lia Permutation.
From Stdlib Require Import Reals Lra Psatz.
From Stdlib Require Import Floats Uint63.
Import ListNotations.

Open Scope Z_scope.

(* ================================================================= *)
(** ** Numbers *)

(** The operations of JavaScript numbers that server.mjs uses. *)
Class Number (T : Type) : Type := {
  fromZ : Z -> T;          (* integer literals: 0, 1, 10, ... *)
  nadd : T -> T -> T;      (* a + b *)
  nsub : T -> T -> T;      (* a - b *)
  nmul : T -> T -> T;      (* a * b *)
  ndiv : T -> T -> T;      (* a / b *)
  nsqrt : T -> T;          (* Math.sqrt(a) *)
  nmax : T -> T -> T;      (* Math.max(a, b) *)
  nmin : T -> T -> T;      (* Math.min(a, b) *)
  neqb : T -> T -> bool;   (* a === b *)
  nltb : T -> T -> bool    (* a < b *)
}.

Declare Scope num_scope.
Delimit Scope num_scope with num.
Infix "+" := nadd : num_scope.
Infix "-" := nsub : num_scope.
Infix "*" := nmul : num_scope.
Infix "/" := ndiv : num_scope.
Infix "===" := neqb (at level 70, no associativity) : num_scope.
Infix "<?" := nltb : num_scope.

(** *** Exact arithmetic: the real numbers *)

Definition R_eqb (a b : R) : bool := if Req_dec_T a b then true else false.
Definition R_ltb (a b : R) : bool := if Rlt_dec a b then true else false.

#[export] Instance Number_R : Number R := {|
  fromZ := IZR;
  nadd := Rplus; nsub := Rminus; nmul := Rmult; ndiv := Rdiv;
  nsqrt := R_sqrt.sqrt;
  nmax := Rmax; nmin := Rmin;
  neqb := R_eqb; nltb := R_ltb
|}.

(** *** IEEE-754 binary64: primitive floats *)

Definition float_of_Z (z : Z) : float :=
  match z with
  | Z0 => PrimFloat.zero
  | Zpos _ => PrimFloat.of_uint63 (Uint63.of_Z z)
  | Zneg p => PrimFloat.opp (PrimFloat.of_uint63 (Uint63.of_Z (Zpos p)))
  end.

(** [Math.max]: NaN if either argument is NaN; +0 is larger than -0. *)
Definition float_max (a b : float) : float :=
  if PrimFloat.is_nan a || PrimFloat.is_nan b then PrimFloat.nan
  else if PrimFloat.ltb a b then b
  else if PrimFloat.ltb b a then a
  else if PrimFloat.get_sign a then b else a.

(** [Math.min]: NaN if either argument is NaN; -0 is smaller than +0. *)
Definition float_min (a b : float) : float :=
  if PrimFloat.is_nan a || PrimFloat.is_nan b then PrimFloat.nan
  else if PrimFloat.ltb a b then a
  else if PrimFloat.ltb b a then b
  else if PrimFloat.get_sign a then a else b.

#[export] Instance Number_float : Number float := {|
  fromZ := float_of_Z;
  nadd := PrimFloat.add; nsub := PrimFloat.sub;
  nmul := PrimFloat.mul; ndiv := PrimFloat.div;
  nsqrt := PrimFloat.sqrt;
  nmax := float_max; nmin := float_min;
  neqb := PrimFloat.eqb; nltb := PrimFloat.ltb
|}.

(* ================================================================= *)
(** ** Geometry: [pointLineDistance] *)

Record Vec3 (T : Type) : Type := mkVec3 { x : T; y : T; z : T }.
Arguments mkVec3 {T} _ _ _.
Arguments x {T} _.
Arguments y {T} _.
Arguments z {T} _.

Section Geometry.
Context {T : Type} `{Number T}.
Local Open Scope num_scope.

Definition pointLineDistance (point lineStart lineEnd : Vec3 T) : T :=
  let AB := mkVec3 (x lineEnd - x lineStart)
                   (y lineEnd - y lineStart)
                   (z lineEnd - z lineStart) in
  let AP := mkVec3 (x point - x lineStart)
                   (y point - y lineStart)
                   (z point - z lineStart) in
  let ab2 := x AB * x AB + y AB * y AB + z AB * z AB in
  if ab2 === fromZ 0 then nsqrt (x AP * x AP + y AP * y AP + z AP * z AP)
  else
    let t := (x AP * x AB + y AP * y AB + z AP * z AB) / ab2 in
    let t := nmax (fromZ 0) (nmin (fromZ 1) t) in
    let closestPoint := mkVec3 (x lineStart + x AB * t)
                               (y lineStart + y AB * t)
                               (z lineStart + z AB * t) in
    let dx := x point - x closestPoint in
    let dy := y point - y closestPoint in
    let dz := z point - z closestPoint in
    nsqrt (dx * dx + dy * dy + dz * dz).



(** The parts of [pointLineDistance], by name: the squared length [ab2]
    of the segment, the parameter [t] before it is clamped, the point
    [closestPoint] of the line at a parameter, and the distance between
    two points as the function computes it. *)
Definition squaredLength (lineStart lineEnd : Vec3 T) : T :=
  (x lineEnd - x lineStart) * (x lineEnd - x lineStart)
  + (y lineEnd - y lineStart) * (y lineEnd - y lineStart)
  + (z lineEnd - z lineStart) * (z lineEnd - z lineStart).

Definition projection (point lineStart lineEnd : Vec3 T) : T :=
  ((x point - x lineStart) * (x lineEnd - x lineStart)
   + (y point - y lineStart) * (y lineEnd - y lineStart)
   + (z point - z lineStart) * (z lineEnd - z lineStart))
  / squaredLength lineStart lineEnd.

Definition pointAt (lineStart lineEnd : Vec3 T) (t : T) : Vec3 T :=
  mkVec3 (x lineStart + (x lineEnd - x lineStart) * t)
         (y lineStart + (y lineEnd - y lineStart) * t)
         (z lineStart + (z lineEnd - z lineStart) * t).

Definition distance (p q : Vec3 T) : T :=
  nsqrt ((x p - x q) * (x p - x q) + (y p - y q) * (y p - y q)
         + (z p - z q) * (z p - z q)).

End Geometry.

(** *** Segment distance, in the words of the specification

    "The minimum distance from a point to the closest point on a finite
    line segment (as opposed to an infinite line)", over the reals. *)

Definition euclidean (p q : Vec3 R) : R :=
  R_sqrt.sqrt ((x p - x q) * (x p - x q) + (y p - y q) * (y p - y q)
               + (z p - z q) * (z p - z q))%R.

(** The point of the line through [a] and [b] at parameter [s]. *)
Definition linePoint (a b : Vec3 R) (s : R) : Vec3 R :=
  mkVec3 (x a + (x b - x a) * s)%R
         (y a + (y b - y a) * s)%R
         (z a + (z b - z a) * s)%R.

(** The finite segment is the part of the line with [0 <= s <= 1]. *)
Definition onSegment (a b q : Vec3 R) : Prop :=
  exists s : R, (0 <= s <= 1)%R /\ q = linePoint a b s.

(** Points with integer coordinates, for examples. *)
Definition vecZ {T : Type} `{Number T} (a b c : Z) : Vec3 T :=
  mkVec3 (fromZ a) (fromZ b) (fromZ c).

(* ================================================================= *)
(** ** Insertion-ordered maps

    A JavaScript [Map] iterates in insertion order; [set] on a present
    key keeps the key's place, [delete] followed by [set] moves it to the
    end.  Keys are connection ids (strings). *)

Abbreviation Id := string (only parsing).

Definition JsMap (V : Type) : Type := list (Id * V).

Fixpoint mget {V : Type} (k : Id) (m : JsMap V) : option V :=
  match m with
  | [] => None
  | (k', v) :: m' => if String.eqb k k' then Some v else mget k m'
  end.

Definition mhas {V : Type} (k : Id) (m : JsMap V) : bool :=
  match mget k m with Some _ => true | None => false end.

Fixpoint mset {V : Type} (k : Id) (v : V) (m : JsMap V) : JsMap V :=
  match m with
  | [] => [(k, v)]
  | (k', v') :: m' =>
    if String.eqb k k' then (k, v) :: m' else (k', v') :: mset k v m'
  end.

Fixpoint mdelete {V : Type} (k : Id) (m : JsMap V) : JsMap V :=
  match m with
  | [] => []
  | (k', v') :: m' =>
    if String.eqb k k' then mdelete k m' else (k', v') :: mdelete k m'
  end.

(** A field write [m.get(k).f = ...] on the object stored under [k]:
    every object lives under exactly one key, so mutating it is
    rewriting the entry in place. *)
Fixpoint mupdate {V : Type} (k : Id) (f : V -> V) (m : JsMap V) : JsMap V :=
  match m with
  | [] => []
  | (k', v') :: m' =>
    if String.eqb k k' then (k', f v') :: m' else (k', v') :: mupdate k f m'
  end.

Definition mkeys {V : Type} (m : JsMap V) : list Id := map fst m.

(** [mall Q m]: every stored value satisfies [Q]. *)
Definition mall {V : Type} (Q : V -> Prop) (m : JsMap V) : Prop :=
  Forall (fun e => Q (snd e)) m.

(* ================================================================= *)
(** ** Plain objects indexed by id

    [laserBuffer] and the payload [allPlayersData] of the state
    broadcast are plain objects ([{}]), not [Map]s.  Their own
    properties are kept in a [JsMap], in creation order; two things set
    them apart from a [Map].

    - A read [obj[k]] that finds no own property [k] falls back to
      [Object.prototype], and the write [obj["__proto__"] = v] runs the
      setter inherited from there: it replaces the prototype and creates
      no own property.
    - [for ... in], [Object.keys] and serialisation visit the own
      properties whose name is an array index first, in ascending
      numeric order, and the other properties after them, in creation
      order. *)

(** The string-named properties of [Object.prototype]. *)
Definition objectPrototypeNames : list string :=
  ["constructor"; "__defineGetter__"; "__defineSetter__"; "hasOwnProperty";
   "__lookupGetter__"; "__lookupSetter__"; "isPrototypeOf";
   "propertyIsEnumerable"; "toString"; "valueOf"; "__proto__";
   "toLocaleString"]%string.

Definition inheritedName (k : Id) : bool :=
  existsb (String.eqb k) objectPrototypeNames.


(** [obj[k] = v]. *)
Definition assignProperty {V : Type} (k : Id) (v : V) (obj : JsMap V)
  : JsMap V :=
  if String.eqb k "__proto__" then obj else mset k v obj.

Definition digit (c : ascii) : option N :=
  let n := N_of_ascii c in
  if ((48 <=? n) && (n <=? 57))%N then Some (n - 48)%N else None.

Fixpoint decimal (acc : N) (s : string) : option N :=
  match s with
  | EmptyString => Some acc
  | String c s' =>
    match digit c with
    | Some d => decimal (10 * acc + d)%N s'
    | None => None
    end
  end.

(** An array index is the canonical decimal numeral (no leading zero) of
    an integer from 0 to 2^32 - 2. *)
Definition arrayIndex (k : Id) : option N :=
  match k with
  | EmptyString => None
  | String "0"%char (String _ _) => None
  | _ =>
    match decimal 0 k with
    | Some n => if (n <=? 4294967294)%N then Some n else None
    | None => None
    end
  end.

Fixpoint insertByIndex {V : Type} (n : N) (e : Id * V)
         (l : list (N * (Id * V))) : list (N * (Id * V)) :=
  match l with
  | [] => [(n, e)]
  | (n', e') :: l' =>
    if (n <? n')%N then (n, e) :: l else (n', e') :: insertByIndex n e l'
  end.

(** The own properties named by an array index, by ascending index. *)
Fixpoint indexedProperties {V : Type} (obj : JsMap V)
  : list (N * (Id * V)) :=
  match obj with
  | [] => []
  | e :: obj' =>
    match arrayIndex (fst e) with
    | Some n => insertByIndex n e (indexedProperties obj')
    | None => indexedProperties obj'
    end
  end.

Definition namedProperty {V : Type} (e : Id * V) : bool :=
  match arrayIndex (fst e) with Some _ => false | None => true end.

(** The own properties in the order of [for ... in] and [Object.keys]. *)
Definition propertyOrder {V : Type} (obj : JsMap V) : JsMap V :=
  map snd (indexedProperties obj) ++ filter namedProperty obj.

(* ================================================================= *)
(** ** Data model *)

Set Implicit Arguments.

(** [rotation] is passed through untouched; the client sends Euler
    angles or a quaternion. *)
Inductive Rotation (T : Type) : Type :=
| Euler (v : Vec3 T)
| Quaternion (v : Vec3 T) (w : T).

(** The object stored in [players] and [disconnectedPlayers].  A record
    that was never hit has no [recentlyHit] property; it reads as falsy
    and is represented by [false]. *)
Record Player (T : Type) : Type := mkPlayer {
  playerId : Id;
  position : Vec3 T;
  rotation : Rotation T;
  velocity : T;
  nickname : string;
  colorIndex : Z;
  health : Z;
  kills : Z;
  timestamp : Z;
  recentlyHit : bool
}.

(** The payload of a client [playerUpdate] message; an absent property
    is [None]. *)
Record UpdateData (T : Type) : Type := mkUpdateData {
  upd_position : option (Vec3 T);
  upd_rotation : option (Rotation T);
  upd_velocity : option T;
  upd_nickname : option string;
  upd_colorIndex : option Z;
  isRespawning : bool
}.

(** The payload of a client [laserFire] message. *)
Record LaserData (T : Type) : Type := mkLaserData {
  startPosition : option (Vec3 T);
  endPosition : option (Vec3 T);
  likelyHit : bool
}.

(** [{ ...data, shooterId: id }] *)
Record LaserEvent (T : Type) : Type := mkLaserEvent {
  laserData : LaserData T;
  shooterId : Id
}.

(** The eight properties sent in [playerJoined] and in the state sync. *)
Record PlayerView (T : Type) : Type := mkPlayerView {
  view_id : Id;
  view_position : Vec3 T;
  view_rotation : Rotation T;
  view_velocity : T;
  view_nickname : string;
  view_colorIndex : Z;
  view_health : Z;
  view_kills : Z
}.

(** Messages the server sends. *)
Inductive Emit (T : Type) : Type :=
| BroadcastPlayerJoined (sender : Id) (p : PlayerView T)
    (* channel.broadcast.emit('playerJoined', ...): all but the sender *)
| SendPlayerJoined (receiver : Id) (p : Player T)
    (* channel.emit('playerJoined', playerData) *)
| EmitPlayerLeft (id : Id)
    (* io.emit('playerLeft', { id }) *)
| EmitLaserFires (events : list (LaserEvent T))
    (* io.emit('laserFires', allLaserEvents) *)
| EmitPlayerUpdate (all : JsMap (PlayerView T)).
    (* io.emit('playerUpdate', allPlayersData) *)

(** The module-level state of server.mjs, the callbacks registered with
    [setTimeout] that have not run yet (due time and captured
    [closestPlayerId], oldest first), and the messages sent so far. *)
Record Server (T : Type) : Type := mkServer {
  players : JsMap (Player T);
  disconnectedPlayers : JsMap (Player T);
  playerLastSeen : JsMap Z;
  laserBuffer : JsMap (list (LaserEvent T));
  timers : list (Z * Id);
  emitted : list (Emit T)
}.

Arguments EmitPlayerLeft {T} id.

(** Configuration constants. *)
Definition PLAYER_TIMEOUT : Z := 10000.
Definition DISCONNECTED_PLAYER_TIMEOUT : Z := 60000.
Definition RECENTLY_HIT_DELAY : Z := 500.

Section Model.
Context {T : Type} `{Number T}.

(** *** Field writes *)

Definition set_position (v : Vec3 T) (p : Player T) : Player T :=
  mkPlayer (playerId p) v (rotation p) (velocity p) (nickname p)
           (colorIndex p) (health p) (kills p) (timestamp p) (recentlyHit p).
Definition set_rotation (r : Rotation T) (p : Player T) : Player T :=
  mkPlayer (playerId p) (position p) r (velocity p) (nickname p)
           (colorIndex p) (health p) (kills p) (timestamp p) (recentlyHit p).
Definition set_velocity (v : T) (p : Player T) : Player T :=
  mkPlayer (playerId p) (position p) (rotation p) v (nickname p)
           (colorIndex p) (health p) (kills p) (timestamp p) (recentlyHit p).
Definition set_nickname (n : string) (p : Player T) : Player T :=
  mkPlayer (playerId p) (position p) (rotation p) (velocity p) n
           (colorIndex p) (health p) (kills p) (timestamp p) (recentlyHit p).
Definition set_colorIndex (c : Z) (p : Player T) : Player T :=
  mkPlayer (playerId p) (position p) (rotation p) (velocity p) (nickname p)
           c (health p) (kills p) (timestamp p) (recentlyHit p).
Definition set_health (h : Z) (p : Player T) : Player T :=
  mkPlayer (playerId p) (position p) (rotation p) (velocity p) (nickname p)
           (colorIndex p) h (kills p) (timestamp p) (recentlyHit p).
Definition set_kills (k : Z) (p : Player T) : Player T :=
  mkPlayer (playerId p) (position p) (rotation p) (velocity p) (nickname p)
           (colorIndex p) (health p) k (timestamp p) (recentlyHit p).
Definition set_timestamp (t : Z) (p : Player T) : Player T :=
  mkPlayer (playerId p) (position p) (rotation p) (velocity p) (nickname p)
           (colorIndex p) (health p) (kills p) t (recentlyHit p).
Definition set_recentlyHit (b : bool) (p : Player T) : Player T :=
  mkPlayer (playerId p) (position p) (rotation p) (velocity p) (nickname p)
           (colorIndex p) (health p) (kills p) (timestamp p) b.

Definition with_players (ps : JsMap (Player T)) (st : Server T) : Server T :=
  mkServer ps (disconnectedPlayers st) (playerLastSeen st)
           (laserBuffer st) (timers st) (emitted st).
Definition with_disconnectedPlayers (ds : JsMap (Player T)) (st : Server T)
  : Server T :=
  mkServer (players st) ds (playerLastSeen st)
           (laserBuffer st) (timers st) (emitted st).
Definition with_playerLastSeen (ls : JsMap Z) (st : Server T) : Server T :=
  mkServer (players st) (disconnectedPlayers st) ls
           (laserBuffer st) (timers st) (emitted st).
Definition with_laserBuffer (b : JsMap (list (LaserEvent T))) (st : Server T)
  : Server T :=
  mkServer (players st) (disconnectedPlayers st) (playerLastSeen st)
           b (timers st) (emitted st).
Definition with_timers (ts : list (Z * Id)) (st : Server T) : Server T :=
  mkServer (players st) (disconnectedPlayers st) (playerLastSeen st)
           (laserBuffer st) ts (emitted st).
Definition emit (m : Emit T) (st : Server T) : Server T :=
  mkServer (players st) (disconnectedPlayers st) (playerLastSeen st)
           (laserBuffer st) (timers st) (emitted st ++ [m]).

(** [clearPlayerData()] at start-up: every registry is empty. *)
Definition clearPlayerData : Server T :=
  mkServer [] [] [] [] [] [].

(** *** [io.onConnection] *)

Definition origin : Vec3 T := mkVec3 (fromZ 0) (fromZ 0) (fromZ 0).

Definition newPlayer (now : Z) (id : Id) : Player T :=
  mkPlayer id origin (Euler origin) (fromZ 0) "Unknown" 0 100 0 now false.

Definition viewOf (p : Player T) : PlayerView T :=
  mkPlayerView (playerId p) (position p) (rotation p) (velocity p)
               (nickname p) (colorIndex p) (health p) (kills p).

(** The payload of the broadcast is rebuilt from [players.get(id)] with
    the connection's own [id]. *)
Definition joinedPayload (id : Id) (p : Player T) : PlayerView T :=
  mkPlayerView id (position p) (rotation p) (velocity p)
               (nickname p) (colorIndex p) (health p) (kills p).

Definition onConnection (now : Z) (id : Id) (st : Server T) : Server T :=
  let st1 :=
    match mget id (disconnectedPlayers st) with
    | Some previousState =>
      with_players (mset id (set_timestamp now previousState) (players st))
        (with_disconnectedPlayers (mdelete id (disconnectedPlayers st)) st)
    | None =>
      with_players (mset id (newPlayer now id) (players st)) st
    end in
  let st2 := with_playerLastSeen (mset id now (playerLastSeen st1)) st1 in
  let st3 :=
    match mget id (players st2) with
    | Some p => emit (BroadcastPlayerJoined id (joinedPayload id p)) st2
    | None => st2
    end in
  fold_left
    (fun s entry =>
       if String.eqb (fst entry) id then s
       else emit (SendPlayerJoined id (snd entry)) s)
    (players st3) st3.

(** *** [channel.onDisconnect] *)

Definition onDisconnect (id : Id) (st : Server T) : Server T :=
  let st1 :=
    match mget id (players st) with
    | Some playerData =>
      with_disconnectedPlayers (mset id playerData (disconnectedPlayers st)) st
    | None => st
    end in
  let st2 := with_players (mdelete id (players st1)) st1 in
  let st3 := with_playerLastSeen (mdelete id (playerLastSeen st2)) st2 in
  emit (EmitPlayerLeft id) st3.

(** *** [channel.on('laserFire')] *)

Definition hitThreshold : T := fromZ 10.

(** [minDistance] starts at [Infinity], written [None]: the test
    [distance < minDistance] is only reached through
    [distance < hitThreshold], which already makes [distance < Infinity]
    true. *)
Definition belowMin (distance : T) (minDistance : option T) : bool :=
  match minDistance with
  | None => true
  | Some m => nltb distance m
  end.

(** One call of the [players.forEach] callback; the accumulator is
    [(minDistance, closestPlayerId)]. *)
Definition scanPlayer (id : Id) (startPos endPos : Vec3 T)
           (acc : option T * option Id) (entry : Id * Player T)
  : option T * option Id :=
  let otherId := fst entry in
  let otherPlayer := snd entry in
  if String.eqb otherId id || (health otherPlayer <=? 0) then acc
  else
    let distance := pointLineDistance (position otherPlayer) startPos endPos in
    if nltb distance hitThreshold && belowMin distance (fst acc)
    then (Some distance, Some otherId)
    else acc.

Definition scanPlayers (id : Id) (startPos endPos : Vec3 T)
           (ps : JsMap (Player T)) : option T * option Id :=
  fold_left (scanPlayer id startPos endPos) ps (None, None).

Definition findClosest (id : Id) (startPos endPos : Vec3 T)
           (ps : JsMap (Player T)) : option Id :=
  snd (scanPlayers id startPos endPos ps).

(** The damage block, run when [closestPlayerId !== null].  [kills] is
    always a number, so [(shooter.kills || 0) + 1] is [shooter.kills + 1]. *)
Definition applyDamage (now : Z) (id closestPlayerId : Id) (st : Server T)
  : Server T :=
  match mget closestPlayerId (players st) with
  | None => st
  | Some targetPlayer =>
    let oldHealth := health targetPlayer in
    let newHealth := Z.max 0 (oldHealth - 5) in
    let ps1 := mupdate closestPlayerId (set_health newHealth) (players st) in
    let ps2 :=
      if (0 <? oldHealth) && (newHealth =? 0) then
        let ps' :=
          match mget id ps1 with
          | Some shooter => mupdate id (set_kills (kills shooter + 1)) ps1
          | None => ps1
          end in
        mupdate closestPlayerId (set_kills 0) ps'
      else ps1 in
    let ps3 := mupdate closestPlayerId (set_recentlyHit true) ps2 in
    with_timers (timers st ++ [(now + RECENTLY_HIT_DELAY, closestPlayerId)])
      (with_players ps3 st)
  end.

(** Buffer the event for the next broadcast, at most two per shooter.

    [laserBuffer[id]] reads the own property [id] when there is one.
    When there is none and [id] is a name of [Object.prototype], it
    reads the inherited value: that value is truthy, so no queue is
    created, and it is not an array, so nothing is stored.  Either its
    [length] is not below 2 and the handler ends there, or the call of
    the missing [push] raises a TypeError ([bufferLaserRaises]); the
    buffer is left as it was in both cases, and what the hit test did
    before stays done. *)
Definition bufferLaser (id : Id) (data : LaserData T) (st : Server T)
  : Server T :=
  if negb (mhas id (laserBuffer st)) && inheritedName id then st
  else
    let queue :=
      match mget id (laserBuffer st) with Some q => q | None => [] end in
    let queue' :=
      if (Z.of_nat (List.length queue) <? 2)
      then queue ++ [mkLaserEvent data id] else queue in
    with_laserBuffer (mset id queue' (laserBuffer st)) st.


Definition laserFire (now : Z) (id : Id) (data : option (LaserData T))
           (st : Server T) : Server T :=
  match data with
  | None => st
  | Some d =>
    match startPosition d, endPosition d with
    | Some startPos, Some endPos =>
      let st1 :=
        if likelyHit d then
          match findClosest id startPos endPos (players st) with
          | Some closestPlayerId => applyDamage now id closestPlayerId st
          | None => st
          end
        else st in
      bufferLaser id d st1
    | _, _ => st
    end
  end.

(** The callback given to [setTimeout(..., 500)]. *)
Definition timerCallback (closestPlayerId : Id) (st : Server T) : Server T :=
  match mget closestPlayerId (players st) with
  | Some _ =>
    with_players
      (mupdate closestPlayerId (set_recentlyHit false) (players st)) st
  | None => st
  end.

(** The event loop runs, oldest first, every pending callback whose
    delay has elapsed, and forgets it. *)
Definition isDue (now : Z) (t : Z * Id) : bool := fst t <=? now.

Definition runTimers (now : Z) (st : Server T) : Server T :=
  fold_left (fun s t => timerCallback (snd t) s)
            (filter (isDue now) (timers st))
            (with_timers (filter (fun t => negb (isDue now t)) (timers st)) st).

(** *** [channel.on('playerUpdate')] *)

(** A string is truthy unless it is empty. *)
Definition truthy (s : option string) : option string :=
  match s with
  | Some n => if String.eqb n "" then None else Some n
  | None => None
  end.

Definition applyOpt {A : Type} (o : option A) (f : A -> Player T -> Player T)
           (p : Player T) : Player T :=
  match o with Some a => f a p | None => p end.

(** The field writes on [player] after the timestamp refresh. *)
Definition applyUpdate (data : UpdateData T) (player : Player T) : Player T :=
  if isRespawning data then
    let p := set_health 100 player in
    let p := set_kills 0 p in
    let p := applyOpt (upd_position data) set_position p in
    let p := applyOpt (upd_rotation data) set_rotation p in
    let p := set_nickname
               (match truthy (upd_nickname data) with
                | Some n => n | None => nickname p end) p in
    set_colorIndex
      (match upd_colorIndex data with
       | Some c => c | None => colorIndex p end) p
  else
    let p := applyOpt (upd_position data) set_position player in
    let p := applyOpt (upd_rotation data) set_rotation p in
    let p := applyOpt (upd_velocity data) set_velocity p in
    let p :=
      match truthy (upd_nickname data) with
      | Some n =>
        if negb (String.eqb n (nickname p)) then set_nickname n p
        else set_nickname n p
      | None => p
      end in
    applyOpt (upd_colorIndex data) set_colorIndex p.

Definition playerUpdate (now : Z) (id : Id) (data : UpdateData T)
           (st : Server T) : Server T :=
  match mget id (players st) with
  | None => st
  | Some _ =>
    let st1 := with_playerLastSeen (mset id now (playerLastSeen st)) st in
    let ps := mupdate id (set_timestamp now) (players st1) in
    with_players (mupdate id (applyUpdate data) ps) st1
  end.

(** *** The sweeper, every 5 seconds *)

Definition purgeExpired (now : Z) (ds : JsMap (Player T))
  : JsMap (Player T) :=
  filter (fun entry =>
            negb (now - timestamp (snd entry) >? DISCONNECTED_PLAYER_TIMEOUT))
         ds.

(** The timeout branch repeats the statements of [onDisconnect]. *)
Definition sweepInactive (now : Z) (st : Server T) (entry : Id * Z)
  : Server T :=
  if now - snd entry >? PLAYER_TIMEOUT then onDisconnect (fst entry) st
  else st.

Definition sweep (now : Z) (st : Server T) : Server T :=
  let st1 :=
    with_disconnectedPlayers (purgeExpired now (disconnectedPlayers st)) st in
  fold_left (sweepInactive now) (playerLastSeen st1) st1.

(** *** The two broadcasters, every 100 ms *)

(** [for (const shooterId in laserBuffer)] visits the own properties in
    [propertyOrder]; [Object.prototype] has no enumerable property, and
    [laserBuffer] never gets an own property named [hasOwnProperty], so
    the test [laserBuffer.hasOwnProperty(shooterId)] holds each time. *)
Definition flushLaserBuffer (st : Server T) : Server T :=
  let allLaserEvents :=
    List.concat (map snd (propertyOrder (laserBuffer st))) in
  let st1 :=
    if (0 <? Z.of_nat (List.length allLaserEvents))
    then emit (EmitLaserFires allLaserEvents) st else st in
  with_laserBuffer [] st1.

(** [allPlayersData] is filled by one assignment per entry of
    [players], in the order of the [Map]; the message carries the own
    properties of the object, in [propertyOrder]. *)
Definition broadcastState (st : Server T) : Server T :=
  let allPlayersData :=
    fold_left
      (fun obj entry => assignProperty (fst entry) (viewOf (snd entry)) obj)
      (players st) [] in
  if (0 <? Z.of_nat (List.length (mkeys allPlayersData)))
  then emit (EmitPlayerUpdate (propertyOrder allPlayersData)) st else st.

(** *** The server as a transition system

    Each event carries the value [Date.now()] has while it is handled. *)
Inductive Event : Type :=
| Connect (id : Id)
| LaserFire (id : Id) (data : option (LaserData T))
| Disconnect (id : Id)
| PlayerUpdate (id : Id) (data : UpdateData T)
| Sweep
| LaserFlush
| StateSync
| Timers.

Definition step (st : Server T) (ev : Z * Event) : Server T :=
  let now := fst ev in
  match snd ev with
  | Connect id => onConnection now id st
  | LaserFire id data => laserFire now id data st
  | Disconnect id => onDisconnect id st
  | PlayerUpdate id data => playerUpdate now id data st
  | Sweep => sweep now st
  | LaserFlush => flushLaserBuffer st
  | StateSync => broadcastState st
  | Timers => runTimers now st
  end.

Definition run (trace : list (Z * Event)) (st : Server T) : Server T :=
  fold_left step trace st.

(** States the server can be in: [clearPlayerData] followed by events. *)
Definition reachable (st : Server T) : Prop :=
  exists trace, st = run trace clearPlayerData.

(** *** Notions used to state the properties *)

(** The state [laserFire] reaches after the hit test, before it buffers
    the event. *)
Definition hitResult (now : Z) (id : Id) (d : LaserData T) (st : Server T)
  : Server T :=
  match startPosition d, endPosition d with
  | Some startPos, Some endPos =>
    if likelyHit d then
      match findClosest id startPos endPos (players st) with
      | Some closestPlayerId => applyDamage now id closestPlayerId st
      | None => st
      end
    else st
  | _, _ => st
  end.

(** The players the scan looks at: every entry of [players] except the
    shooter's and those with no health left. *)
Definition considered (id : Id) (entry : Id * Player T) : bool :=
  negb (String.eqb (fst entry) id || (health (snd entry) <=? 0)).

Definition distanceTo (startPos endPos : Vec3 T) (p : Player T) : T :=
  pointLineDistance (position p) startPos endPos.

(** What the scan has established after visiting the entries [seen]. *)
Definition scanState (id : Id) (startPos endPos : Vec3 T)
           (seen : JsMap (Player T)) (acc : option T * option Id) : Prop :=
  match snd acc with
  | None =>
    fst acc = None /\
    forall e, In e seen -> considered id e = true ->
              nltb (distanceTo startPos endPos (snd e)) hitThreshold = false
  | Some v =>
    exists p, In (v, p) seen /\ considered id (v, p) = true /\
              fst acc = Some (distanceTo startPos endPos p) /\
              nltb (distanceTo startPos endPos p) hitThreshold = true /\
              forall e, In e seen -> considered id e = true ->
                nltb (distanceTo startPos endPos (snd e))
                     (distanceTo startPos endPos p) = false
  end.

(** Two states with the same registries, laser buffer and timers: they
    differ at most in the messages sent. *)
Definition sameRegistries (st st' : Server T) : Prop :=
  players st' = players st /\
  disconnectedPlayers st' = disconnectedPlayers st /\
  playerLastSeen st' = playerLastSeen st /\
  laserBuffer st' = laserBuffer st /\
  timers st' = timers st.

(** The [recentlyHit] flag of the active record of [v], if any. *)
Definition flagOf (v : Id) (st : Server T) : option bool :=
  option_map (@recentlyHit T) (mget v (players st)).

(** *** Properties of states *)

(** [health] of every stored record, active or disconnected, is in
    [0, 100]. *)
Definition healthBounded (p : Player T) : Prop := 0 <= health p <= 100.

Definition healthInvariant (st : Server T) : Prop :=
  mall healthBounded (players st) /\ mall healthBounded (disconnectedPlayers st).

(** No id is in both [players] and [disconnectedPlayers]. *)
Definition registriesDisjoint (st : Server T) : Prop :=
  forall id : Id,
    mhas id (players st) && mhas id (disconnectedPlayers st) = false.

(** [players] and [playerLastSeen] hold the same ids. *)
Definition sameIds (st : Server T) : Prop :=
  forall id : Id, mhas id (players st) = mhas id (playerLastSeen st).

(** Keys of the three maps are unique, as in a JavaScript [Map]. *)
Definition uniqueKeys (st : Server T) : Prop :=
  NoDup (mkeys (players st)) /\ NoDup (mkeys (disconnectedPlayers st))
  /\ NoDup (mkeys (playerLastSeen st)).

(** The [kills] counter the server holds for [id], in whichever
    registry its record is. *)
Definition killsOf (id : Id) (st : Server T) : option Z :=
  match mget id (players st) with
  | Some p => Some (kills p)
  | None => option_map (@kills T) (mget id (disconnectedPlayers st))
  end.

(** *** Further properties of states *)

(** A stored record carries the id it is stored under, its kills are
    not negative and its health is a multiple of 5. *)
Definition recordOk (entry : Id * Player T) : Prop :=
  playerId (snd entry) = fst entry
  /\ 0 <= kills (snd entry)
  /\ (5 | health (snd entry)).

Definition recordsOk (st : Server T) : Prop :=
  Forall recordOk (players st) /\ Forall recordOk (disconnectedPlayers st).

(** A queue of the laser buffer: at most two events, all tagged with the
    shooter the queue belongs to. *)
Definition queueOk (entry : Id * list (LaserEvent T)) : Prop :=
  (List.length (snd entry) <= 2)%nat
  /\ Forall (fun e => shooterId e = fst entry) (snd entry).

Definition bufferOk (st : Server T) : Prop :=
  NoDup (mkeys (laserBuffer st)) /\ Forall queueOk (laserBuffer st).

(** The events of [events] fired by [id]. *)
Definition firedBy (id : Id) (events : list (LaserEvent T))
  : list (LaserEvent T) :=
  filter (fun e => String.eqb (shooterId e) id) events.

(** [id] has an entry of [playerLastSeen] older than the timeout. *)
Definition isStale (now : Z) (id : Id) (entry : Id * Z) : bool :=
  String.eqb (fst entry) id && (now - snd entry >? PLAYER_TIMEOUT).

Definition staleIn (now : Z) (id : Id) (l : JsMap Z) : bool :=
  existsb (isStale now id) l.

(** The messages of a list that announce a departure. *)
Definition leftMessages (l : JsMap Z) : list (Emit T) :=
  map (fun entry => EmitPlayerLeft (fst entry)) l.

(** [n] hits in a row on [v] by [id]. *)
Fixpoint hitTimes (n : nat) (now : Z) (id v : Id) (st : Server T)
  : Server T :=
  match n with
  | O => st
  | S n' => hitTimes n' now id v (applyDamage now id v st)
  end.

End Model.

Unset Implicit Arguments.

(** [<] on numbers is irreflexive and transitive: true of the reals and
    of binary64 (where every comparison with NaN is false). *)
Class NumberOrder (T : Type) `{Number T} : Prop := {
  nltb_irrefl : forall a : T, nltb a a = false;
  nltb_trans :
    forall a b c : T, nltb a b = true -> nltb b c = true -> nltb a c = true
}.

(* ================================================================= *)
(** ** Scenarios, run on binary64 numbers *)

(** A shot fired at the origin, where new players are. *)
Definition shotData : LaserData float :=
  mkLaserData (Some (vecZ 0 0 0)) (Some (vecZ 0 0 0)) true.

Definition shotAtOrigin : option (LaserData float) := Some shotData.

Definition keepAlive : UpdateData float :=
  mkUpdateData None None None None None false.

(** A and B connect; A hits B nineteen times (health 5); B keeps sending
    updates and A does not, so the sweeper moves A to
    [disconnectedPlayers] while its channel stays open. *)
Definition shooterTimedOut : Server float :=
  run ([(0, Connect "A"); (0, Connect "B")]
         ++ repeat (1, LaserFire "A" shotAtOrigin) 19
         ++ [(15000, PlayerUpdate "B" keepAlive); (20000, Sweep)])
      clearPlayerData.

(** A and B have just connected. *)
Definition twoPlayers : Server float :=
  run [(0, Connect "A"); (0, Connect "B")] clearPlayerData.

(** A and B connect and A hits B nineteen times: B is left with health
    5, and both are still active. *)
Definition oneHitLeft : Server float :=
  run ([(0, Connect "A"); (0, Connect "B")]
         ++ repeat (1, LaserFire "A" shotAtOrigin) 19)
      clearPlayerData.

(** A and B connect, A hits B at 1000 ms and again at 1400 ms. *)
Definition hitTwice : Server float :=
  run [(0, Connect "A"); (0, Connect "B");
       (1000, LaserFire "A" shotAtOrigin);
       (1400, LaserFire "A" shotAtOrigin)]
      clearPlayerData.

(** P and Q connect at 0; Q hits P once; P disconnects at 9000 ms. *)
Definition leftAtNine : Server float :=
  run [(0, Connect "P"); (0, Connect "Q");
       (1000, LaserFire "Q" shotAtOrigin);
       (9000, Disconnect "P")]
      clearPlayerData.

(** A record with health 40 and 3 kills waiting in
    [disconnectedPlayers]. *)
Definition veteran : Player float :=
  mkPlayer "V" (vecZ 1 2 3) (Euler (vecZ 0 0 0)) (fromZ 7) "Vet" 2 40 3 1000
           false.

Definition veteranAway : Server float :=
  mkServer [] [("V"%string, veteran)] [] [] [] [].

(** Three clients whose ids are b, 10 and 2 connect and fire once each,
    in that order. *)
Definition numberedShooters : Server float :=
  run [(0, Connect "b"); (0, Connect "10"); (0, Connect "2");
       (1, LaserFire "b" shotAtOrigin);
       (2, LaserFire "10" shotAtOrigin);
       (3, LaserFire "2" shotAtOrigin)]
      clearPlayerData.

(** A client whose connection id is [__proto__], alone. *)
Definition protoOnly : Server float :=
  run [(0, Connect "__proto__")] clearPlayerData.

(** Clients whose connection ids are [__proto__] and [constructor]. *)
Definition protoPlayer : Server float :=
  run [(0, Connect "__proto__"); (0, Connect "constructor")] clearPlayerData.

(** A position update that moves the sender to [v] and changes nothing
    else. *)
Definition moveTo (v : Vec3 float) : UpdateData float :=
  mkUpdateData (Some v) None None None None false.

(** A shot along the x axis, from (-5,0,0) to (5,0,0). *)
Definition shotAlongX : LaserData float :=
  mkLaserData (Some (vecZ (-5) 0 0)) (Some (vecZ 5 0 0)) true.

(** A stays at the origin, on the path of the shot; B stands at
    (0,10,0). *)
Definition onlyAtTen : Server float :=
  run [(0, Connect "A"); (0, Connect "B");
       (1, PlayerUpdate "B" (moveTo (vecZ 0 10 0)))]
      clearPlayerData.

(** B stands at (0,10,0) and C at (0,9.99,0), 9.99 being the binary64
    number nearest to it. *)
Definition atTheThreshold : Server float :=
  run [(0, Connect "A"); (0, Connect "B"); (0, Connect "C");
       (1, PlayerUpdate "B" (moveTo (vecZ 0 10 0)));
       (1, PlayerUpdate "C"
             (moveTo (mkVec3 0%float 0x1.3fae147ae147bp+3%float 0%float)))]
      clearPlayerData.

(** B, C and D stand at (0,3,0), (0,2,0) and (0,4,0). *)
Definition threeInRange : Server float :=
  run [(0, Connect "A"); (0, Connect "B"); (0, Connect "C");
       (0, Connect "D");
       (1, PlayerUpdate "B" (moveTo (vecZ 0 3 0)));
       (1, PlayerUpdate "C" (moveTo (vecZ 0 2 0)));
       (1, PlayerUpdate "D" (moveTo (vecZ 0 4 0)))]
      clearPlayerData.

(** B stands at (-2,10,0); the shot goes from the origin to (36,15,0). *)
Definition tenAway : Server float :=
  run [(0, Connect "A"); (0, Connect "B");
       (1, PlayerUpdate "B" (moveTo (vecZ (-2) 10 0)))]
      clearPlayerData.

Definition slantedShot : LaserData float :=
  mkLaserData (Some (vecZ 0 0 0)) (Some (vecZ 36 15 0)) true.

(* ================================================================= *)
(** ** Facts about insertion-ordered maps *)

Ltac string_cases :=
  repeat match goal with
  | |- context [String.eqb ?a ?b] =>
    destruct (String.eqb_spec a b); subst; simpl; try congruence
  | H : context [String.eqb ?a ?b] |- _ =>
    destruct (String.eqb_spec a b); subst; simpl in H; try congruence
  end.

Section MapFacts.
Context {V : Type}.
Implicit Types (m : JsMap V) (k : Id) (v : V).

Lemma mget_mset k k' v m :
  mget k' (mset k v m) = if String.eqb k' k then Some v else mget k' m.
Proof.
  induction m as [|[k0 v0] m IH]; simpl.
  - string_cases.
  - destruct (String.eqb_spec k k0); subst; simpl.
    + string_cases.
    + rewrite IH. string_cases.
Qed.

Lemma mget_mdelete k k' m :
  mget k' (mdelete k m) = if String.eqb k' k then None else mget k' m.
Proof.
  induction m as [|[k0 v0] m IH]; simpl.
  - string_cases.
  - destruct (String.eqb_spec k k0); subst; simpl.
    + rewrite IH. string_cases.
    + rewrite IH. string_cases.
Qed.

Lemma mget_mupdate k k' (f : V -> V) m :
  mget k' (mupdate k f m) =
  if String.eqb k' k then option_map f (mget k m) else mget k' m.
Proof.
  induction m as [|[k0 v0] m IH]; simpl.
  - string_cases.
  - destruct (String.eqb_spec k k0); subst; simpl.
    + string_cases.
    + rewrite IH. string_cases.
Qed.

Lemma mhas_mset k k' v m :
  mhas k' (mset k v m) = String.eqb k' k || mhas k' m.
Proof. unfold mhas. rewrite mget_mset. string_cases. Qed.

Lemma mhas_mdelete k k' m :
  mhas k' (mdelete k m) = negb (String.eqb k' k) && mhas k' m.
Proof. unfold mhas. rewrite mget_mdelete. string_cases. Qed.

Lemma mhas_mupdate k k' (f : V -> V) m :
  mhas k' (mupdate k f m) = mhas k' m.
Proof.
  unfold mhas. rewrite mget_mupdate.
  destruct (String.eqb_spec k' k); subst; [|reflexivity].
  destruct (mget k m); reflexivity.
Qed.

Lemma mhas_In k m : mhas k m = true <-> In k (mkeys m).
Proof.
  unfold mhas. induction m as [|[k0 v0] m IH]; simpl.
  - split; [discriminate | tauto].
  - destruct (String.eqb_spec k k0); subst.
    + split; auto.
    + rewrite IH. split; [auto | intros [E|I]; congruence].
Qed.

Lemma mget_In k v m : mget k m = Some v -> In (k, v) m.
Proof.
  induction m as [|[k0 v0] m IH]; simpl; [discriminate|].
  destruct (String.eqb_spec k k0); subst.
  - intros E; inversion E; auto.
  - auto.
Qed.

Lemma In_mget k v m : NoDup (mkeys m) -> In (k, v) m -> mget k m = Some v.
Proof.
  induction m as [|[k0 v0] m IH]; simpl; [tauto|].
  intros ND [E|I].
  - inversion E; subst. rewrite String.eqb_refl. reflexivity.
  - inversion ND as [|? ? NI ND']; subst.
    destruct (String.eqb_spec k k0); subst.
    + exfalso. apply NI. apply (in_map fst) in I. exact I.
    + auto.
Qed.

Lemma mhas_filter k (P : Id * V -> bool) m :
  mhas k (filter P m) = true -> mhas k m = true.
Proof.
  rewrite !mhas_In. unfold mkeys. rewrite !in_map_iff.
  intros [e [E I]]. exists e. split; [exact E|].
  apply filter_In in I. tauto.
Qed.

Lemma mkeys_mupdate k (f : V -> V) m : mkeys (mupdate k f m) = mkeys m.
Proof.
  unfold mkeys. induction m as [|[k0 v0] m IH]; simpl; [reflexivity|].
  destruct (String.eqb k k0); simpl; congruence.
Qed.

Lemma In_mkeys_mset k k' v m :
  In k' (mkeys (mset k v m)) <-> k' = k \/ In k' (mkeys m).
Proof.
  rewrite <- !mhas_In, mhas_mset, orb_true_iff, String.eqb_eq. tauto.
Qed.

Lemma In_mkeys_mdelete k k' m :
  In k' (mkeys (mdelete k m)) <-> k' <> k /\ In k' (mkeys m).
Proof.
  rewrite <- !mhas_In, mhas_mdelete, andb_true_iff, negb_true_iff,
    String.eqb_neq. tauto.
Qed.

Lemma NoDup_mset k v m : NoDup (mkeys m) -> NoDup (mkeys (mset k v m)).
Proof.
  induction m as [|[k0 v0] m IH]; simpl; intros ND.
  - constructor; [simpl; tauto | constructor].
  - inversion ND as [|? ? NI ND']; subst.
    destruct (String.eqb_spec k k0); subst; simpl.
    + constructor; assumption.
    + constructor; [|auto].
      change (~ In k0 (mkeys (mset k v m))).
      rewrite In_mkeys_mset. intros [E|I]; [congruence | contradiction].
Qed.

Lemma NoDup_mdelete k m : NoDup (mkeys m) -> NoDup (mkeys (mdelete k m)).
Proof.
  induction m as [|[k0 v0] m IH]; simpl; intros ND; [constructor|].
  inversion ND as [|? ? NI ND']; subst.
  destruct (String.eqb_spec k k0); subst; simpl; [auto|].
  constructor; [|auto].
  change (~ In k0 (mkeys (mdelete k m))).
  rewrite In_mkeys_mdelete. tauto.
Qed.

Lemma NoDup_filter_keys (P : Id * V -> bool) m :
  NoDup (mkeys m) -> NoDup (mkeys (filter P m)).
Proof.
  induction m as [|[k0 v0] m IH]; simpl; intros ND; [constructor|].
  inversion ND as [|? ? NI ND']; subst.
  destruct (P (k0, v0)); simpl; [|auto].
  constructor; [|auto].
  intros I. apply NI. unfold mkeys in *. rewrite in_map_iff in *.
  destruct I as [e [E I]]. exists e. split; [exact E|].
  apply filter_In in I. tauto.
Qed.

Lemma mall_mget {Q : V -> Prop} {k v m} : mall Q m -> mget k m = Some v -> Q v.
Proof.
  intros A G. apply mget_In in G. unfold mall in A.
  rewrite Forall_forall in A. exact (A _ G).
Qed.

Lemma mall_mset {Q : V -> Prop} k v {m} : Q v -> mall Q m -> mall Q (mset k v m).
Proof.
  intros Qv. unfold mall.
  induction m as [|[k0 v0] m IH]; simpl; intros A.
  - constructor; [exact Qv | constructor].
  - inversion A; subst.
    destruct (String.eqb k k0); constructor; auto.
Qed.

Lemma mall_mdelete {Q : V -> Prop} k {m} : mall Q m -> mall Q (mdelete k m).
Proof.
  unfold mall. induction m as [|[k0 v0] m IH]; simpl; intros A; [constructor|].
  inversion A; subst.
  destruct (String.eqb k k0); [auto | constructor; auto].
Qed.

Lemma mall_mupdate {Q : V -> Prop} k (f : V -> V) {m} :
  (forall v, Q v -> Q (f v)) -> mall Q m -> mall Q (mupdate k f m).
Proof.
  intros Qf. unfold mall.
  induction m as [|[k0 v0] m IH]; simpl; intros A; [constructor|].
  inversion A; subst.
  destruct (String.eqb k k0); constructor; simpl in *; auto.
Qed.

Lemma mall_filter {Q : V -> Prop} (P : Id * V -> bool) {m} :
  mall Q m -> mall Q (filter P m).
Proof.
  unfold mall. rewrite !Forall_forall. intros A e I.
  apply filter_In in I. apply A. tauto.
Qed.

End MapFacts.

(* ================================================================= *)
(** ** What each handler does to the registries *)

Section Handlers.
Context {T : Type} `{Number T}.
Implicit Types (st : Server T) (id : Id) (now : Z).

Lemma run_invariant (P : Server T -> Prop) :
  (forall st ev, P st -> P (step st ev)) ->
  forall trace st, P st -> P (run trace st).
Proof.
  intros Hstep trace. unfold run.
  induction trace as [|ev trace IH]; simpl; intros st HP; auto.
Qed.

Lemma fold_invariant {A : Type} (P : Server T -> Prop)
      (f : Server T -> A -> Server T) :
  (forall st a, P st -> P (f st a)) ->
  forall l st, P st -> P (fold_left f l st).
Proof.
  intros Hf l. induction l as [|a l IH]; simpl; intros st HP; auto.
Qed.

Lemma sameRegistries_refl st : sameRegistries st st.
Proof. repeat split. Qed.

(** Sending a message touches nothing but [emitted]. *)
Lemma sameRegistries_emit st st' m :
  sameRegistries st st' -> sameRegistries st (emit m st').
Proof. intros S. exact S. Qed.

Lemma catchUp_sameRegistries id (l : JsMap (Player T)) st0 st :
  sameRegistries st0 st ->
  sameRegistries st0
    (fold_left
       (fun s entry =>
          if String.eqb (fst entry) id then s
          else emit (SendPlayerJoined id (snd entry)) s) l st).
Proof.
  revert st. induction l as [|e l IH]; simpl; intros st S; [exact S|].
  apply IH. cbv beta. destruct (String.eqb (fst e) id); [exact S|].
  apply sameRegistries_emit. exact S.
Qed.

Lemma onConnection_registries now id st :
  let st' := onConnection now id st in
  players st' =
    mset id (match mget id (disconnectedPlayers st) with
             | Some previousState => set_timestamp now previousState
             | None => newPlayer now id
             end) (players st)
  /\ disconnectedPlayers st' =
       match mget id (disconnectedPlayers st) with
       | Some _ => mdelete id (disconnectedPlayers st)
       | None => disconnectedPlayers st
       end
  /\ playerLastSeen st' = mset id now (playerLastSeen st)
  /\ laserBuffer st' = laserBuffer st
  /\ timers st' = timers st.
Proof.
  unfold onConnection. cbv zeta.
  match goal with
  | |- context [fold_left ?f ?l ?s] =>
    pose proof (@catchUp_sameRegistries id l s s (sameRegistries_refl s)) as S
  end.
  destruct S as (Sp & Sd & Sl & Sb & St).
  rewrite Sp, Sd, Sl, Sb, St. clear Sp Sd Sl Sb St.
  destruct (mget id (disconnectedPlayers st)) as [prev|]; simpl;
    rewrite mget_mset, String.eqb_refl; simpl; repeat split.
Qed.

Lemma onDisconnect_registries id st :
  let st' := onDisconnect id st in
  players st' = mdelete id (players st)
  /\ disconnectedPlayers st' =
       match mget id (players st) with
       | Some playerData => mset id playerData (disconnectedPlayers st)
       | None => disconnectedPlayers st
       end
  /\ playerLastSeen st' = mdelete id (playerLastSeen st)
  /\ laserBuffer st' = laserBuffer st
  /\ timers st' = timers st
  /\ emitted st' = emitted st ++ [EmitPlayerLeft id].
Proof.
  unfold onDisconnect. cbv zeta.
  destruct (mget id (players st)); simpl; repeat split.
Qed.

Lemma applyDamage_registries now id v st :
  let st' := applyDamage now id v st in
  disconnectedPlayers st' = disconnectedPlayers st
  /\ playerLastSeen st' = playerLastSeen st
  /\ laserBuffer st' = laserBuffer st
  /\ emitted st' = emitted st.
Proof.
  unfold applyDamage. cbv zeta.
  destruct (mget v (players st)); simpl; repeat split.
Qed.

Lemma applyDamage_mhas now id v st k :
  mhas k (players (applyDamage now id v st)) = mhas k (players st).
Proof.
  unfold applyDamage.
  destruct (mget v (players st)) as [target|]; [|reflexivity]. cbv zeta.
  simpl. rewrite mhas_mupdate.
  destruct ((0 <? health target) && (Z.max 0 (health target - 5) =? 0)).
  - rewrite mhas_mupdate.
    destruct (mget id (mupdate v (set_health (Z.max 0 (health target - 5)))
                               (players st)));
      rewrite ?mhas_mupdate; reflexivity.
  - rewrite mhas_mupdate. reflexivity.
Qed.

Lemma applyDamage_mkeys now id v st :
  mkeys (players (applyDamage now id v st)) = mkeys (players st).
Proof.
  unfold applyDamage.
  destruct (mget v (players st)) as [target|]; [|reflexivity]. cbv zeta.
  simpl. rewrite mkeys_mupdate.
  destruct ((0 <? health target) && (Z.max 0 (health target - 5) =? 0)).
  - rewrite mkeys_mupdate.
    destruct (mget id (mupdate v (set_health (Z.max 0 (health target - 5)))
                               (players st)));
      rewrite ?mkeys_mupdate; reflexivity.
  - rewrite mkeys_mupdate. reflexivity.
Qed.

Lemma bufferLaser_registries id (d : LaserData T) st :
  let st' := bufferLaser id d st in
  players st' = players st
  /\ disconnectedPlayers st' = disconnectedPlayers st
  /\ playerLastSeen st' = playerLastSeen st
  /\ timers st' = timers st
  /\ emitted st' = emitted st.
Proof.
  unfold bufferLaser. cbv zeta. destruct (_ && _); repeat split.
Qed.

Lemma laserFire_registries now id (d : LaserData T) st :
  let st' := laserFire now id (Some d) st in
  players st' = players (hitResult now id d st)
  /\ disconnectedPlayers st' = disconnectedPlayers st
  /\ playerLastSeen st' = playerLastSeen st
  /\ timers st' = timers (hitResult now id d st)
  /\ emitted st' = emitted st.
Proof.
  unfold laserFire, hitResult. cbv zeta.
  destruct (startPosition d) as [a|]; [|repeat split].
  destruct (endPosition d) as [b|]; [|repeat split].
  match goal with
  | |- context [bufferLaser id d ?s] =>
    destruct (bufferLaser_registries id d s) as (B1 & B2 & B3 & B4 & B5)
  end.
  rewrite B1, B2, B3, B4, B5.
  destruct (likelyHit d); [|repeat split].
  destruct (findClosest id a b (players st)) as [v|]; [|repeat split].
  pose proof (applyDamage_registries now id v st) as R. cbv zeta in R.
  destruct R as (Rd & Rl & Rb & Re). repeat split; assumption.
Qed.

Lemma timerCallback_registries v st :
  let st' := timerCallback v st in
  players st' = mupdate v (set_recentlyHit false) (players st)
  /\ disconnectedPlayers st' = disconnectedPlayers st
  /\ playerLastSeen st' = playerLastSeen st
  /\ laserBuffer st' = laserBuffer st
  /\ timers st' = timers st
  /\ emitted st' = emitted st.
Proof.
  unfold timerCallback. cbv zeta.
  destruct (mget v (players st)) eqn:G; simpl; repeat split.
  symmetry. clear -G. induction (players st) as [|[k0 v0] m IH]; simpl in *.
  - reflexivity.
  - destruct (String.eqb v k0); [discriminate|]. f_equal. auto.
Qed.

End Handlers.

(* ================================================================= *)
(** ** Invariants of the reachable states *)

Section Invariants.
Context {T : Type} `{Number T}.
Implicit Types (st : Server T) (id : Id) (now : Z).

Lemma playerUpdate_registries now id (data : UpdateData T) st :
  let st' := playerUpdate now id data st in
  players st' =
    mupdate id (applyUpdate data) (mupdate id (set_timestamp now) (players st))
  /\ disconnectedPlayers st' = disconnectedPlayers st
  /\ playerLastSeen st' =
       (if mhas id (players st) then mset id now (playerLastSeen st)
        else playerLastSeen st)
  /\ laserBuffer st' = laserBuffer st
  /\ timers st' = timers st
  /\ emitted st' = emitted st.
Proof.
  unfold playerUpdate, mhas. cbv zeta.
  destruct (mget id (players st)) eqn:G; simpl; repeat split.
  assert (E : forall f : Player T -> Player T,
             mupdate id f (players st) = players st).
  { clear -G. intros f. induction (players st) as [|[k0 v0] m IH]; simpl in *.
    - reflexivity.
    - destruct (String.eqb id k0); [discriminate|]. f_equal. auto. }
  rewrite E. rewrite E. reflexivity.
Qed.

Lemma applyUpdate_health (data : UpdateData T) (p : Player T) :
  health (applyUpdate data p) = if isRespawning data then 100 else health p.
Proof.
  unfold applyUpdate, applyOpt.
  destruct (isRespawning data), (upd_position data), (upd_rotation data),
    (upd_velocity data), (truthy (upd_nickname data)), (upd_colorIndex data);
    simpl; try reflexivity;
    match goal with
    | |- context [negb ?b] => destruct b; reflexivity
    end.
Qed.

Lemma applyUpdate_kills (data : UpdateData T) (p : Player T) :
  kills (applyUpdate data p) = if isRespawning data then 0 else kills p.
Proof.
  unfold applyUpdate, applyOpt.
  destruct (isRespawning data), (upd_position data), (upd_rotation data),
    (upd_velocity data), (truthy (upd_nickname data)), (upd_colorIndex data);
    simpl; try reflexivity;
    match goal with
    | |- context [negb ?b] => destruct b; reflexivity
    end.
Qed.

(** *** Health stays in [0, 100] *)

Lemma applyDamage_health now id v st :
  mall healthBounded (players st) ->
  mall healthBounded (players (applyDamage now id v st)).
Proof.
  intros A. unfold applyDamage.
  destruct (mget v (players st)) as [target|] eqn:G; [|exact A].
  cbv zeta. simpl.
  assert (B : healthBounded target) by exact (mall_mget A G).
  unfold healthBounded in B.
  assert (A1 : mall healthBounded
                 (mupdate v (set_health (Z.max 0 (health target - 5)))
                          (players st))).
  { apply mall_mupdate; [|exact A].
    intros p _. unfold healthBounded. simpl. lia. }
  apply mall_mupdate; [intros ? Hp; exact Hp|].
  destruct ((0 <? health target) && (Z.max 0 (health target - 5) =? 0)).
  - apply mall_mupdate; [intros ? Hp; exact Hp|].
    destruct (mget id _); [|exact A1].
    apply mall_mupdate; [intros ? Hp; exact Hp | exact A1].
  - exact A1.
Qed.

Lemma onDisconnect_health id st :
  healthInvariant st -> healthInvariant (onDisconnect id st).
Proof.
  intros [Ap Ad].
  destruct (onDisconnect_registries id st) as (Ep & Ed & _).
  split.
  - rewrite Ep. apply mall_mdelete. exact Ap.
  - rewrite Ed. destruct (mget id (players st)) as [p|] eqn:G; [|exact Ad].
    apply mall_mset; [exact (mall_mget Ap G) | exact Ad].
Qed.

Lemma timerCallback_health v st :
  healthInvariant st -> healthInvariant (timerCallback v st).
Proof.
  intros [Ap Ad].
  destruct (timerCallback_registries v st) as (Ep & Ed & _).
  split.
  - rewrite Ep. apply mall_mupdate; [intros ? Hp; exact Hp | exact Ap].
  - rewrite Ed. exact Ad.
Qed.

Lemma step_health st (ev : Z * Event) :
  healthInvariant st -> healthInvariant (step st ev).
Proof.
  intros Inv. destruct ev as [now [id|id data|id|id data| | | |]];
    unfold step; simpl.
  - (* connect *)
    destruct Inv as [Ap Ad].
    destruct (onConnection_registries now id st) as (Ep & Ed & _).
    split.
    + rewrite Ep. apply mall_mset; [|exact Ap].
      destruct (mget id (disconnectedPlayers st)) as [prev|] eqn:G.
      * exact (mall_mget Ad G).
      * unfold healthBounded. simpl. lia.
    + rewrite Ed. destruct (mget id (disconnectedPlayers st));
        [apply mall_mdelete|]; exact Ad.
  - (* laserFire *)
    destruct data as [d|]; [|exact Inv].
    destruct Inv as [Ap Ad].
    destruct (laserFire_registries now id d st) as (Ep & Ed & _).
    split; [|rewrite Ed; exact Ad].
    rewrite Ep. unfold hitResult.
    destruct (startPosition d); [|exact Ap].
    destruct (endPosition d); [|exact Ap].
    destruct (likelyHit d); [|exact Ap].
    destruct (findClosest _ _ _ _); [|exact Ap].
    apply applyDamage_health. exact Ap.
  - (* disconnect *)
    apply onDisconnect_health. exact Inv.
  - (* playerUpdate *)
    destruct Inv as [Ap Ad].
    destruct (playerUpdate_registries now id data st) as (Ep & Ed & _).
    split; [|rewrite Ed; exact Ad].
    rewrite Ep. apply mall_mupdate.
    + intros p Hp. unfold healthBounded in *. rewrite applyUpdate_health.
      destruct (isRespawning data); lia.
    + apply mall_mupdate; [intros ? Hp; exact Hp | exact Ap].
  - (* sweep *)
    unfold sweep. cbv zeta. apply fold_invariant.
    + intros s e Hs. unfold sweepInactive.
      destruct (now - snd e >? PLAYER_TIMEOUT);
        [apply onDisconnect_health|]; exact Hs.
    + destruct Inv as [Ap Ad]. split; simpl; [exact Ap|].
      apply mall_filter. exact Ad.
  - (* laser flush *)
    unfold flushLaserBuffer. cbv zeta.
    destruct (0 <? _); exact Inv.
  - (* state sync *)
    unfold broadcastState. cbv zeta.
    destruct (0 <? _); exact Inv.
  - (* timers *)
    unfold runTimers. apply fold_invariant.
    + intros s e Hs. apply timerCallback_health. exact Hs.
    + exact Inv.
Qed.

End Invariants.

Section RegistryInvariants.
Context {T : Type} `{Number T}.
Implicit Types (st : Server T) (id : Id) (now : Z).

Lemma hitResult_mkeys now id (d : LaserData T) st :
  mkeys (players (hitResult now id d st)) = mkeys (players st).
Proof.
  unfold hitResult.
  destruct (startPosition d); [|reflexivity].
  destruct (endPosition d); [|reflexivity].
  destruct (likelyHit d); [|reflexivity].
  destruct (findClosest _ _ _ _); [|reflexivity].
  apply applyDamage_mkeys.
Qed.

Lemma mhas_mkeys {V W : Type} (m : JsMap V) (m' : JsMap W) :
  mkeys m = mkeys m' -> forall k, mhas k m = mhas k m'.
Proof.
  intros E k.
  destruct (mhas k m) eqn:A, (mhas k m') eqn:B; try reflexivity.
  - apply mhas_In in A. rewrite E in A. apply mhas_In in A. congruence.
  - apply mhas_In in B. rewrite <- E in B. apply mhas_In in B. congruence.
Qed.

Lemma hitResult_mhas now id (d : LaserData T) st k :
  mhas k (players (hitResult now id d st)) = mhas k (players st).
Proof. apply mhas_mkeys. apply hitResult_mkeys. Qed.

(** *** At most one registry holds an id *)

Lemma onDisconnect_disjoint id st :
  registriesDisjoint st -> registriesDisjoint (onDisconnect id st).
Proof.
  intros Inv k. specialize (Inv k).
  destruct (onDisconnect_registries id st) as (Ep & Ed & _).
  rewrite Ep, Ed, mhas_mdelete.
  destruct (String.eqb_spec k id); subst; simpl; [reflexivity|].
  destruct (mget id (players st)); [|exact Inv].
  rewrite mhas_mset.
  destruct (String.eqb_spec k id); [contradiction|exact Inv].
Qed.

Lemma step_disjoint st (ev : Z * Event) :
  registriesDisjoint st -> registriesDisjoint (step st ev).
Proof.
  intros Inv. destruct ev as [now [id|id data|id|id data| | | |]];
    unfold step; simpl.
  - (* connect *)
    intros k. specialize (Inv k).
    destruct (onConnection_registries now id st) as (Ep & Ed & _).
    rewrite Ep, Ed, mhas_mset.
    destruct (String.eqb_spec k id); subst; simpl.
    + destruct (mget id (disconnectedPlayers st)) eqn:G.
      * rewrite mhas_mdelete, String.eqb_refl. reflexivity.
      * unfold mhas. rewrite G. reflexivity.
    + destruct (mget id (disconnectedPlayers st)); [|exact Inv].
      rewrite mhas_mdelete.
      destruct (String.eqb_spec k id); [contradiction|exact Inv].
  - (* laserFire *)
    destruct data as [d|]; [|exact Inv].
    intros k. specialize (Inv k).
    destruct (laserFire_registries now id d st) as (Ep & Ed & _).
    rewrite Ep, Ed, hitResult_mhas. exact Inv.
  - (* disconnect *)
    apply onDisconnect_disjoint. exact Inv.
  - (* playerUpdate *)
    intros k. specialize (Inv k).
    destruct (playerUpdate_registries now id data st) as (Ep & Ed & _).
    rewrite Ep, Ed, !mhas_mupdate. exact Inv.
  - (* sweep *)
    unfold sweep. cbv zeta. apply fold_invariant.
    + intros s e Hs. unfold sweepInactive.
      destruct (now - snd e >? PLAYER_TIMEOUT);
        [apply onDisconnect_disjoint|]; exact Hs.
    + intros k. specialize (Inv k). simpl.
      destruct (mhas k (players st)); [simpl in *|reflexivity].
      destruct (mhas k (purgeExpired now (disconnectedPlayers st))) eqn:P;
        [|reflexivity].
      apply mhas_filter in P. congruence.
  - (* laser flush *)
    unfold flushLaserBuffer. cbv zeta.
    destruct (0 <? _); exact Inv.
  - (* state sync *)
    unfold broadcastState. cbv zeta.
    destruct (0 <? _); exact Inv.
  - (* timers *)
    unfold runTimers. apply fold_invariant.
    + intros s e Hs k. specialize (Hs k).
      destruct (timerCallback_registries (snd e) s) as (Ep & Ed & _).
      rewrite Ep, Ed, mhas_mupdate. exact Hs.
    + exact Inv.
Qed.

(** *** [players] and [playerLastSeen] have the same ids *)

Lemma onDisconnect_sameIds id st :
  sameIds st -> sameIds (onDisconnect id st).
Proof.
  intros Inv k. specialize (Inv k).
  destruct (onDisconnect_registries id st) as (Ep & _ & El & _).
  rewrite Ep, El, !mhas_mdelete, Inv. reflexivity.
Qed.

Lemma onConnection_sameIds now id st :
  sameIds st -> sameIds (onConnection now id st).
Proof.
  intros Inv k. specialize (Inv k).
  destruct (onConnection_registries now id st) as (Ep & _ & El & _).
  rewrite Ep, El, !mhas_mset, Inv. reflexivity.
Qed.

Lemma laserFire_sameIds now id data st :
  sameIds st -> sameIds (laserFire now id data st).
Proof.
  intros Inv. destruct data as [d|]; [|exact Inv].
  intros k. specialize (Inv k).
  destruct (laserFire_registries now id d st) as (Ep & _ & El & _).
  rewrite Ep, El, hitResult_mhas. exact Inv.
Qed.

Lemma playerUpdate_sameIds now id data st :
  sameIds st -> sameIds (playerUpdate now id data st).
Proof.
  intros Inv k. pose proof (Inv id) as Iid. specialize (Inv k).
  destruct (playerUpdate_registries now id data st) as (Ep & _ & El & _).
  rewrite Ep, El, !mhas_mupdate.
  destruct (mhas id (players st)) eqn:A; [|exact Inv].
  rewrite mhas_mset.
  destruct (String.eqb_spec k id); subst; simpl; [exact A|exact Inv].
Qed.

Lemma sweep_sameIds now st : sameIds st -> sameIds (sweep now st).
Proof.
  intros Inv. unfold sweep. cbv zeta. apply fold_invariant.
  - intros s e Hs. unfold sweepInactive.
    destruct (now - snd e >? PLAYER_TIMEOUT);
      [apply onDisconnect_sameIds|]; exact Hs.
  - exact Inv.
Qed.

Lemma runTimers_sameIds now st : sameIds st -> sameIds (runTimers now st).
Proof.
  intros Inv. unfold runTimers. apply fold_invariant.
  - intros s e Hs k. specialize (Hs k).
    destruct (timerCallback_registries (snd e) s) as (Ep & _ & El & _).
    rewrite Ep, El, mhas_mupdate. exact Hs.
  - exact Inv.
Qed.

Lemma step_sameIds st (ev : Z * Event) : sameIds st -> sameIds (step st ev).
Proof.
  intros Inv. destruct ev as [now [id|id data|id|id data| | | |]];
    unfold step; simpl.
  - apply onConnection_sameIds; exact Inv.
  - apply laserFire_sameIds; exact Inv.
  - apply onDisconnect_sameIds; exact Inv.
  - apply playerUpdate_sameIds; exact Inv.
  - apply sweep_sameIds; exact Inv.
  - unfold flushLaserBuffer. cbv zeta. destruct (0 <? _); exact Inv.
  - unfold broadcastState. cbv zeta. destruct (0 <? _); exact Inv.
  - apply runTimers_sameIds; exact Inv.
Qed.

(** *** Keys are unique *)

Lemma onDisconnect_uniqueKeys id st :
  uniqueKeys st -> uniqueKeys (onDisconnect id st).
Proof.
  intros (Np & Nd & Nl).
  destruct (onDisconnect_registries id st) as (Ep & Ed & El & _).
  unfold uniqueKeys. rewrite Ep, Ed, El.
  repeat split; try (apply NoDup_mdelete; assumption).
  destruct (mget id (players st)); [apply NoDup_mset|]; assumption.
Qed.

Lemma step_uniqueKeys st (ev : Z * Event) :
  uniqueKeys st -> uniqueKeys (step st ev).
Proof.
  intros Inv. destruct ev as [now [id|id data|id|id data| | | |]];
    unfold step; simpl.
  - destruct Inv as (Np & Nd & Nl).
    destruct (onConnection_registries now id st) as (Ep & Ed & El & _).
    unfold uniqueKeys. rewrite Ep, Ed, El.
    repeat split; try (apply NoDup_mset; assumption).
    destruct (mget id (disconnectedPlayers st));
      [apply NoDup_mdelete|]; assumption.
  - destruct data as [d|]; [|exact Inv].
    destruct Inv as (Np & Nd & Nl).
    destruct (laserFire_registries now id d st) as (Ep & Ed & El & _).
    unfold uniqueKeys. rewrite Ep, Ed, El, hitResult_mkeys.
    repeat split; assumption.
  - apply onDisconnect_uniqueKeys. exact Inv.
  - destruct Inv as (Np & Nd & Nl).
    destruct (playerUpdate_registries now id data st) as (Ep & Ed & El & _).
    unfold uniqueKeys. rewrite Ep, Ed, El, !mkeys_mupdate.
    repeat split; try assumption.
    destruct (mhas id (players st)); [apply NoDup_mset|]; assumption.
  - unfold sweep. cbv zeta. apply fold_invariant.
    + intros s e Hs. unfold sweepInactive.
      destruct (now - snd e >? PLAYER_TIMEOUT);
        [apply onDisconnect_uniqueKeys|]; exact Hs.
    + destruct Inv as (Np & Nd & Nl). repeat split; simpl; try assumption.
      apply NoDup_filter_keys. exact Nd.
  - unfold flushLaserBuffer. cbv zeta. destruct (0 <? _); exact Inv.
  - unfold broadcastState. cbv zeta. destruct (0 <? _); exact Inv.
  - unfold runTimers. apply fold_invariant.
    + intros s e (Np & Nd & Nl).
      destruct (timerCallback_registries (snd e) s) as (Ep & Ed & El & _).
      unfold uniqueKeys. rewrite Ep, Ed, El, mkeys_mupdate.
      repeat split; assumption.
    + exact Inv.
Qed.

Lemma reachable_uniqueKeys st : reachable st -> uniqueKeys st.
Proof.
  intros [trace ->]. apply run_invariant.
  - intros s ev. apply step_uniqueKeys.
  - repeat split; constructor.
Qed.

End RegistryInvariants.

(* ================================================================= *)
(** ** Health, registries and reconnection *)

Section RegistryTheorems.
Context {T : Type} `{Number T}.
Implicit Types (st : Server T) (id : Id) (now : Z).

Lemma applyDamage_target now id v st :
  mget v (players (applyDamage now id v st)) =
  option_map
    (fun t =>
       let newHealth := Z.max 0 (health t - 5) in
       let t1 := set_health newHealth t in
       let t2 :=
         if (0 <? health t) && (newHealth =? 0) then
           set_kills 0 (if String.eqb v id
                        then set_kills (kills t1 + 1) t1 else t1)
         else t1 in
       set_recentlyHit true t2)
    (mget v (players st)).
Proof.
  unfold applyDamage.
  destruct (mget v (players st)) as [target|] eqn:G; simpl;
    [|rewrite G; reflexivity].
  set (h' := Z.max 0 (health target - 5)).
  assert (G1 : mget v (mupdate v (set_health h') (players st))
               = Some (set_health h' target)).
  { rewrite mget_mupdate, String.eqb_refl, G. reflexivity. }
  rewrite mget_mupdate, String.eqb_refl.
  destruct ((0 <? health target) && (h' =? 0)).
  - rewrite mget_mupdate, String.eqb_refl.
    destruct (String.eqb_spec v id) as [E|N].
    + subst id. rewrite G1, mget_mupdate, String.eqb_refl, G1. reflexivity.
    + assert (Gs : mget id (mupdate v (set_health h') (players st))
                   = mget id (players st)).
      { rewrite mget_mupdate.
        destruct (String.eqb_spec id v); [congruence|reflexivity]. }
      rewrite Gs. destruct (mget id (players st)).
      * rewrite mget_mupdate.
        destruct (String.eqb_spec v id); [contradiction|].
        rewrite G1. reflexivity.
      * rewrite G1. reflexivity.
  - rewrite G1. reflexivity.
Qed.

Lemma applyDamage_health_value now id v st :
  option_map (@health T) (mget v (players (applyDamage now id v st)))
  = option_map (fun t => Z.max 0 (health t - 5)) (mget v (players st)).
Proof.
  rewrite applyDamage_target.
  destruct (mget v (players st)) as [t|]; [|reflexivity]. simpl.
  destruct ((0 <? health t) && (Z.max 0 (health t - 5) =? 0));
    [destruct (String.eqb v id)|]; reflexivity.
Qed.

(** C1.  In every state reached from start-up by any sequence of events
    (connects and reconnects, playerUpdate messages with or without the
    respawn flag, laserFire messages, disconnects, sweeps, broadcasts and
    timer callbacks), the health of every record, in [players] or in
    [disconnectedPlayers], is within [0, 100].  A hit replaces the
    victim's health [h] by [max 0 (h - 5)]; a connection that creates a
    record gives it health 100 (a reconnection keeps the stored value);
    a respawn update sets health to 100 and any other update leaves it
    unchanged. *)
Theorem health_within_bounds :
  (forall (trace : list (Z * Event)) id (p : Player T),
      mget id (players (run trace clearPlayerData)) = Some p \/
      mget id (disconnectedPlayers (run trace clearPlayerData)) = Some p ->
      0 <= health p <= 100)
  /\ (forall now id v st,
         option_map (@health T) (mget v (players (applyDamage now id v st)))
         = option_map (fun t => Z.max 0 (health t - 5)) (mget v (players st)))
  /\ (forall now id st,
         option_map (@health T) (mget id (players (onConnection now id st)))
         = Some (match mget id (disconnectedPlayers st) with
                 | Some previousState => health previousState
                 | None => 100
                 end))
  /\ (forall now id data st,
         option_map (@health T) (mget id (players (playerUpdate now id data st)))
         = option_map (fun p => if isRespawning data then 100 else health p)
                      (mget id (players st))).
Proof.
  split; [|split; [|split]].
  - intros trace id p Hp.
    assert (Inv : healthInvariant (run trace (clearPlayerData (T := T)))).
    { apply run_invariant.
      - intros s ev. apply step_health.
      - split; constructor. }
    destruct Inv as [Ap Ad].
    destruct Hp as [G|G]; [exact (mall_mget Ap G) | exact (mall_mget Ad G)].
  - intros now id v st. apply applyDamage_health_value.
  - intros now id st.
    destruct (onConnection_registries now id st) as (Ep & _).
    rewrite Ep, mget_mset, String.eqb_refl.
    destruct (mget id (disconnectedPlayers st)); reflexivity.
  - intros now id data st.
    destruct (playerUpdate_registries now id data st) as (Ep & _).
    rewrite Ep, !mget_mupdate, String.eqb_refl.
    destruct (mget id (players st)) as [p|]; [|reflexivity]. simpl.
    rewrite applyUpdate_health. reflexivity.
Qed.

(** C3.  In every state reached from start-up by any sequence of events,
    no id is in both [players] and [disconnectedPlayers]. *)
Theorem registries_never_overlap :
  forall (trace : list (Z * Event)),
    registriesDisjoint (run trace (clearPlayerData (T := T))).
Proof.
  intros trace. apply run_invariant.
  - intros s ev. apply step_disjoint.
  - intros k. reflexivity.
Qed.

(** C10.  Each operation of the server keeps [players] and
    [playerLastSeen] on the same set of ids: connection or reconnection,
    playerUpdate, laserFire, disconnect, the purge loop of the sweeper,
    one round of its timeout loop, the whole sweep, and every step of
    the transition system (broadcasters and timer callbacks included).
    The start-up state has the property, hence so does every reachable
    state. *)
Theorem players_lastSeen_same_ids :
  (forall now id st, sameIds st -> sameIds (onConnection now id st))
  /\ (forall now id data st, sameIds st -> sameIds (playerUpdate now id data st))
  /\ (forall now id data st, sameIds st -> sameIds (laserFire now id data st))
  /\ (forall id st, sameIds st -> sameIds (onDisconnect id st))
  /\ (forall now st,
         sameIds st ->
         sameIds (with_disconnectedPlayers
                    (purgeExpired now (disconnectedPlayers st)) st))
  /\ (forall now st entry, sameIds st -> sameIds (sweepInactive now st entry))
  /\ (forall now st, sameIds st -> sameIds (sweep now st))
  /\ (forall st (ev : Z * Event), sameIds st -> sameIds (step st ev))
  /\ (forall trace : list (Z * Event),
         sameIds (run trace (clearPlayerData (T := T)))).
Proof.
  repeat split.
  - apply onConnection_sameIds.
  - apply playerUpdate_sameIds.
  - apply laserFire_sameIds.
  - apply onDisconnect_sameIds.
  - intros now st Inv. exact Inv.
  - intros now st entry Inv. unfold sweepInactive.
    destruct (now - snd entry >? PLAYER_TIMEOUT);
      [apply onDisconnect_sameIds|]; exact Inv.
  - apply sweep_sameIds.
  - apply step_sameIds.
  - intros trace. apply run_invariant.
    + apply step_sameIds.
    + intros k. reflexivity.
Qed.

(** C6.  When [id] is in [disconnectedPlayers] at the moment it connects,
    [onConnection] puts the stored record back into [players] and
    removes it from [disconnectedPlayers]; no default record is created.
    The restored record has [timestamp] equal to the current time, and
    its id, position, rotation, velocity, nickname, colour, health,
    kills and [recentlyHit] flag are those of the stored record. *)
Theorem reconnect_restores_record :
  forall now id st (previousState : Player T),
    mget id (disconnectedPlayers st) = Some previousState ->
    let st' := onConnection now id st in
    mget id (players st') = Some (set_timestamp now previousState)
    /\ (exists restored,
          mget id (players st') = Some restored
          /\ timestamp restored = now
          /\ playerId restored = playerId previousState
          /\ position restored = position previousState
          /\ rotation restored = rotation previousState
          /\ velocity restored = velocity previousState
          /\ nickname restored = nickname previousState
          /\ colorIndex restored = colorIndex previousState
          /\ health restored = health previousState
          /\ kills restored = kills previousState
          /\ recentlyHit restored = recentlyHit previousState)
    /\ option_map (@health T) (mget id (players st'))
       = Some (health previousState)
    /\ option_map (@kills T) (mget id (players st'))
       = Some (kills previousState)
    /\ mget id (disconnectedPlayers st') = None.
Proof.
  intros now id st prev G st'.
  destruct (onConnection_registries now id st) as (Ep & Ed & _).
  fold st' in Ep, Ed. rewrite Ep, Ed, G, mget_mset, String.eqb_refl.
  rewrite mget_mdelete, String.eqb_refl.
  split; [reflexivity|]. split; [|repeat split].
  exists (set_timestamp now prev). destruct prev. repeat split.
Qed.

End RegistryTheorems.

(* ================================================================= *)
(** ** The hit scan *)

Section Scan.
Context {T : Type} `{NumberOrder T}.
Implicit Types (st : Server T) (id : Id) (now : Z).

Ltac last_entry I' :=
  apply in_app_or in I'; destruct I' as [I'|[I'|[]]].

Lemma scanPlayer_state id (a b : Vec3 T) seen acc e :
  scanState id a b seen acc ->
  scanState id a b (seen ++ [e]) (scanPlayer id a b acc e).
Proof.
  intros S. unfold scanPlayer.
  destruct (String.eqb (fst e) id || (health (snd e) <=? 0)) eqn:Skip.
  { (* the entry is skipped *)
    assert (C : considered id e = false)
      by (unfold considered; rewrite Skip; reflexivity).
    unfold scanState in *.
    destruct (snd acc) as [v|].
    - destruct S as (p & I & Cp & M & L & Min).
      exists p. split; [apply in_or_app; auto|].
      split; [exact Cp|]. split; [exact M|]. split; [exact L|].
      intros e' I' C'. last_entry I'; [auto | congruence].
    - destruct S as (M & Far). split; [exact M|].
      intros e' I' C'. last_entry I'; [auto | congruence]. }
  assert (C : considered id e = true)
    by (unfold considered; rewrite Skip; reflexivity).
  assert (Ie : In (fst e, snd e) (seen ++ [e]))
    by (apply in_or_app; right; left; destruct e; reflexivity).
  assert (Ce : considered id (fst e, snd e) = true)
    by (destruct e; exact C).
  unfold scanState in *.
  fold (distanceTo a b (snd e)).
  set (d := distanceTo a b (snd e)) in *.
  destruct (nltb d hitThreshold) eqn:Near; simpl.
  - destruct (snd acc) as [v|] eqn:A.
    + destruct S as (p & I & Cp & M & L & Min).
      rewrite M. simpl.
      destruct (nltb d (distanceTo a b p)) eqn:Closer; simpl.
      * exists (snd e). split; [exact Ie|]. split; [exact Ce|].
        split; [reflexivity|]. split; [exact Near|].
        intros e' I' C'. last_entry I'.
        -- destruct (nltb (distanceTo a b (snd e')) d) eqn:X; [|exact X].
           pose proof (nltb_trans _ _ _ X Closer) as Y.
           rewrite (Min e' I' C') in Y. discriminate.
        -- subst e'. apply nltb_irrefl.
      * rewrite A. exists p. split; [apply in_or_app; auto|].
        split; [exact Cp|]. split; [exact M|]. split; [exact L|].
        intros e' I' C'. last_entry I'; [auto|]. subst e'. exact Closer.
    + destruct S as (M & Far). rewrite M. simpl.
      exists (snd e). split; [exact Ie|]. split; [exact Ce|].
      split; [reflexivity|]. split; [exact Near|].
      intros e' I' C'. last_entry I'.
      * destruct (nltb (distanceTo a b (snd e')) d) eqn:X; [|exact X].
        pose proof (nltb_trans _ _ _ X Near) as Y.
        rewrite (Far e' I' C') in Y. discriminate.
      * subst e'. apply nltb_irrefl.
  - destruct (snd acc) as [v|] eqn:A.
    + destruct S as (p & I & Cp & M & L & Min).
      exists p. split; [apply in_or_app; auto|].
      split; [exact Cp|]. split; [exact M|]. split; [exact L|].
      intros e' I' C'. last_entry I'; [auto|]. subst e'. fold d.
      destruct (nltb d (distanceTo a b p)) eqn:X; [|reflexivity].
      pose proof (nltb_trans _ _ _ X L) as Y.
      rewrite Near in Y. discriminate.
    + destruct S as (M & Far). split; [exact M|].
      intros e' I' C'. last_entry I'; [auto|]. subst e'. exact Near.
Qed.

Lemma scanPlayers_state id (a b : Vec3 T) (ps : JsMap (Player T)) :
  scanState id a b ps (scanPlayers id a b ps).
Proof.
  unfold scanPlayers.
  assert (G : forall l seen acc,
             scanState id a b seen acc ->
             scanState id a b (seen ++ l)
                       (fold_left (scanPlayer id a b) l acc)).
  { induction l as [|e l IH]; intros seen acc S; simpl.
    - rewrite app_nil_r. exact S.
    - replace (seen ++ e :: l) with ((seen ++ [e]) ++ l)
        by (rewrite <- app_assoc; reflexivity).
      apply IH. apply scanPlayer_state. exact S. }
  apply (G ps [] (None, None)).
  simpl. split; [reflexivity|]. intros e [].
Qed.

End Scan.

(* ================================================================= *)
(** ** Damage and kill bookkeeping *)

Section Damage.
Context {T : Type} `{Number T}.
Implicit Types (st : Server T) (id : Id) (now : Z).

(** Whoever the scan returns was looked at: it is an entry of the map,
    not the shooter, with health left, and within the threshold. *)
Lemma findClosest_considered id (a b : Vec3 T) (ps : JsMap (Player T)) v :
  findClosest id a b ps = Some v ->
  exists p, In (v, p) ps /\ considered id (v, p) = true /\
            nltb (distanceTo a b p) hitThreshold = true.
Proof.
  unfold findClosest, scanPlayers.
  assert (G : forall l acc,
             (forall w, snd acc = Some w ->
                exists p, In (w, p) ps /\ considered id (w, p) = true /\
                          nltb (distanceTo a b p) hitThreshold = true) ->
             (forall e, In e l -> In e ps) ->
             forall w, snd (fold_left (scanPlayer id a b) l acc) = Some w ->
                exists p, In (w, p) ps /\ considered id (w, p) = true /\
                          nltb (distanceTo a b p) hitThreshold = true).
  { induction l as [|e l IH]; intros acc Hacc Sub w; simpl; [apply Hacc|].
    apply IH; [|intros e' I'; apply Sub; right; exact I'].
    intros w'. unfold scanPlayer.
    destruct (String.eqb (fst e) id || (health (snd e) <=? 0)) eqn:Skip;
      [apply Hacc|].
    fold (distanceTo a b (snd e)).
    destruct (nltb (distanceTo a b (snd e)) hitThreshold) eqn:Near; simpl;
      [|apply Hacc].
    destruct (belowMin (distanceTo a b (snd e)) (fst acc)); [|apply Hacc].
    simpl. intros E. inversion E; subst w'. exists (snd e).
    split; [apply Sub; left; destruct e; reflexivity|].
    split; [|exact Near].
    unfold considered. simpl. rewrite Skip. reflexivity. }
  apply (G ps (None, None)); [discriminate | auto].
Qed.

Lemma applyDamage_other now id v st (target : Player T) k :
  mget v (players st) = Some target -> k <> v ->
  mget k (players (applyDamage now id v st)) =
  if (0 <? health target) && (Z.max 0 (health target - 5) =? 0)
     && String.eqb k id
  then option_map (fun s => set_kills (kills s + 1) s) (mget k (players st))
  else mget k (players st).
Proof.
  intros G N. unfold applyDamage. rewrite G. simpl.
  set (h' := Z.max 0 (health target - 5)).
  assert (K : forall (f : Player T -> Player T) m,
             mget k (mupdate v f m) = mget k m).
  { intros f m. rewrite mget_mupdate.
    destruct (String.eqb_spec k v); [contradiction|reflexivity]. }
  rewrite K.
  destruct ((0 <? health target) && (h' =? 0)); simpl; [|apply K].
  rewrite K.
  destruct (String.eqb_spec k id) as [E|N'].
  - subst id. rewrite K.
    destruct (mget k (players st)) as [s|] eqn:Gs; simpl.
    + rewrite mget_mupdate, String.eqb_refl, K, Gs. reflexivity.
    + rewrite K. exact Gs.
  - destruct (mget id (mupdate v (set_health h') (players st))).
    + rewrite mget_mupdate.
      destruct (String.eqb_spec k id); [contradiction|]. apply K.
    + apply K.
Qed.

(** C2, as amended.  When a laserFire hit takes the victim's health from
    above 0 to exactly 0, the same handling step resets the victim's
    kills to 0 and, if the shooter has a record in [players], adds
    exactly 1 to that record's kills; a shooter without a record in
    [players] gets no credit, and no other record changes.  A hit that
    leaves health above 0, or whose victim already has health 0, changes
    no kills counter.  [disconnectedPlayers] is never touched. *)
Theorem kill_coupling :
  forall now id (d : LaserData T) a b v st (target : Player T),
    startPosition d = Some a -> endPosition d = Some b ->
    likelyHit d = true ->
    findClosest id a b (players st) = Some v ->
    mget v (players st) = Some target ->
    let st' := laserFire now id (Some d) st in
    let newHealth := Z.max 0 (health target - 5) in
    v <> id
    /\ option_map (@health T) (mget v (players st')) = Some newHealth
    /\ (0 < health target -> newHealth = 0 ->
        option_map (@kills T) (mget v (players st')) = Some 0
        /\ option_map (@kills T) (mget id (players st'))
           = option_map (fun s => kills s + 1) (mget id (players st))
        /\ forall k, k <> v -> k <> id ->
                     mget k (players st') = mget k (players st))
    /\ (0 < newHealth \/ health target <= 0 ->
        forall k, option_map (@kills T) (mget k (players st'))
                  = option_map (@kills T) (mget k (players st)))
    /\ disconnectedPlayers st' = disconnectedPlayers st.
Proof.
  intros now id d a b v st target Ha Hb Hl Hf G st' newHealth.
  destruct (laserFire_registries now id d st) as (Ep & Ed & _).
  fold st' in Ep, Ed.
  assert (Eh : hitResult now id d st = applyDamage now id v st).
  { unfold hitResult. rewrite Ha, Hb, Hl, Hf. reflexivity. }
  rewrite Eh in Ep.
  assert (Nv : v <> id).
  { destruct (findClosest_considered _ _ _ _ _ Hf) as (p & _ & C & _).
    unfold considered in C. simpl in C.
    destruct (String.eqb_spec v id); [discriminate|assumption]. }
  assert (Ev : mget v (players st') =
               Some (set_recentlyHit true
                       (if (0 <? health target) && (newHealth =? 0)
                        then set_kills 0 (set_health newHealth target)
                        else set_health newHealth target))).
  { rewrite Ep, applyDamage_target, G. simpl. fold newHealth.
    destruct (String.eqb_spec v id); [contradiction|]. reflexivity. }
  split; [exact Nv|]. split.
  { rewrite Ev. simpl.
    destruct ((0 <? health target) && (newHealth =? 0)); reflexivity. }
  split; [|split; [|exact Ed]].
  - intros Pos Zero.
    assert (Kill : (0 <? health target) && (newHealth =? 0) = true).
    { apply andb_true_intro. split; [apply Z.ltb_lt | apply Z.eqb_eq];
        assumption. }
    split; [rewrite Ev, Kill; reflexivity|]. split.
    + rewrite Ep, (applyDamage_other now id v st target id G (not_eq_sym Nv)).
      fold newHealth. rewrite Kill, String.eqb_refl. simpl.
      destruct (mget id (players st)); reflexivity.
    + intros k Nkv Nki.
      rewrite Ep, (applyDamage_other now id v st target k G Nkv).
      destruct (String.eqb_spec k id); [contradiction|].
      rewrite andb_false_r. reflexivity.
  - intros NoKill k.
    assert (Kill : (0 <? health target) && (newHealth =? 0) = false).
    { destruct NoKill as [P|P].
      - apply andb_false_intro2. apply Z.eqb_neq. lia.
      - apply andb_false_intro1. apply Z.ltb_ge. exact P. }
    destruct (String.eqb_spec k v) as [E|Nkv].
    + subst k. rewrite Ev, Kill, G. reflexivity.
    + rewrite Ep, (applyDamage_other now id v st target k G Nkv).
      fold newHealth. rewrite Kill. reflexivity.
Qed.

End Damage.

(* ================================================================= *)
(** ** Hit resolution *)

Section HitResolution.
Context {T : Type} `{NumberOrder T}.
Implicit Types (st : Server T) (id : Id) (now : Z).

Lemma considered_iff id k (p : Player T) :
  considered id (k, p) = true <-> k <> id /\ 0 < health p.
Proof.
  unfold considered. simpl.
  rewrite negb_true_iff, orb_false_iff, String.eqb_neq, Z.leb_gt. tauto.
Qed.

(** The outcome of the hit test, for any model of the numbers whose
    [<] is irreflexive and transitive. *)
Lemma hit_scan_outcome :
  forall now id (d : LaserData T) a b st,
    reachable st ->
    startPosition d = Some a -> endPosition d = Some b ->
    likelyHit d = true ->
    let st' := laserFire now id (Some d) st in
    let looksAt k p :=
      mget k (players st) = Some p /\ k <> id /\ 0 < health p in
    let near p := nltb (distanceTo a b p) hitThreshold = true in
    ((forall k p, looksAt k p -> ~ near p)
     /\ players st' = players st
     /\ disconnectedPlayers st' = disconnectedPlayers st
     /\ timers st' = timers st)
    \/
    (exists v target,
        looksAt v target /\ near target
        /\ (forall k p, looksAt k p ->
              nltb (distanceTo a b p) (distanceTo a b target) = false)
        /\ option_map (@health T) (mget v (players st'))
           = Some (Z.max 0 (health target - 5))
        /\ (forall k, k <> v ->
              option_map (@health T) (mget k (players st'))
              = option_map (@health T) (mget k (players st)))
        /\ (forall k, k <> v -> k <> id ->
              mget k (players st') = mget k (players st))
        /\ disconnectedPlayers st' = disconnectedPlayers st).
Proof.
  intros now id d a b st R Ha Hb Hl st' looksAt near.
  destruct (reachable_uniqueKeys st R) as (ND & _).
  destruct (laserFire_registries now id d st) as (Ep & Ed & _ & Et & _).
  fold st' in Ep, Ed, Et.
  pose proof (scanPlayers_state id a b (players st)) as S.
  unfold scanState in S.
  assert (Eh : hitResult now id d st =
               match findClosest id a b (players st) with
               | Some v => applyDamage now id v st
               | None => st
               end).
  { unfold hitResult. rewrite Ha, Hb, Hl. reflexivity. }
  unfold findClosest in Eh.
  destruct (snd (scanPlayers id a b (players st))) as [v|].
  - right. destruct S as (target & I & C & _ & Near & Min).
    assert (G : mget v (players st) = Some target)
      by (apply In_mget; assumption).
    rewrite Eh in Ep.
    exists v, target.
    split; [split; [exact G | apply considered_iff; exact C]|].
    split; [exact Near|]. split.
    { intros k p (Gk & Nk & Hk).
      apply (Min (k, p)); [apply mget_In; exact Gk|].
      apply considered_iff. split; assumption. }
    split.
    { rewrite Ep, applyDamage_health_value, G. reflexivity. }
    split.
    { intros k Nk. rewrite Ep, (applyDamage_other now id v st target k G Nk).
      destruct ((0 <? health target) && (Z.max 0 (health target - 5) =? 0)
                && String.eqb k id); [|reflexivity].
      destruct (mget k (players st)); reflexivity. }
    split; [|exact Ed].
    intros k Nk Nid. rewrite Ep, (applyDamage_other now id v st target k G Nk).
    destruct (String.eqb_spec k id); [contradiction|].
    rewrite andb_false_r. reflexivity.
  - left. destruct S as (_ & Far). rewrite Eh in Ep, Et.
    split; [|repeat split; assumption].
    intros k p (Gk & Nk & Hk) N. unfold near in N.
    assert (F : nltb (distanceTo a b p) hitThreshold = false).
    { apply (Far (k, p)); [apply mget_In; exact Gk|].
      apply considered_iff. split; assumption. }
    congruence.
Qed.

End HitResolution.

(* ================================================================= *)
(** ** The order on numbers *)

Lemma R_ltb_true (a b : R) : R_ltb a b = true <-> (a < b)%R.
Proof.
  unfold R_ltb. destruct (Rlt_dec a b); split; intros; auto; discriminate.
Qed.

Lemma R_ltb_false (a b : R) : R_ltb a b = false <-> (b <= a)%R.
Proof.
  unfold R_ltb. destruct (Rlt_dec a b); split; intros; auto;
    try discriminate; lra.
Qed.

#[export] Instance NumberOrder_R : NumberOrder R.
Proof.
  split.
  - intros a. apply R_ltb_false. simpl. lra.
  - intros a b c. simpl. rewrite !R_ltb_true. lra.
Qed.

Lemma SFltb_irrefl (a : SpecFloat.spec_float) : SpecFloat.SFltb a a = false.
Proof.
  unfold SpecFloat.SFltb, SpecFloat.SFcompare.
  destruct a as [s|s| |s m e]; try destruct s; try reflexivity;
    rewrite Z.compare_refl, ?Pos.compare_refl; reflexivity.
Qed.

(** Comparison of two finite binary floats of the same sign: exponents
    first, then mantissas. *)
Lemma lex_compare_Lt (e1 e2 : Z) (m1 m2 : positive) :
  match Z.compare e1 e2 with
  | Lt => Lt | Gt => Gt | Eq => Pos.compare_cont Eq m1 m2
  end = Lt <-> e1 < e2 \/ (e1 = e2 /\ (m1 < m2)%positive).
Proof.
  change (Pos.compare_cont Eq m1 m2) with (Pos.compare m1 m2).
  destruct (Z.compare_spec e1 e2), (Pos.compare_spec m1 m2);
    split; intros E; try discriminate; try reflexivity; try lia.
Qed.

Lemma lex_compare_opp_Lt (e1 e2 : Z) (m1 m2 : positive) :
  match Z.compare e1 e2 with
  | Lt => Gt | Gt => Lt | Eq => CompOpp (Pos.compare_cont Eq m1 m2)
  end = Lt <-> e2 < e1 \/ (e1 = e2 /\ (m2 < m1)%positive).
Proof.
  change (Pos.compare_cont Eq m1 m2) with (Pos.compare m1 m2).
  destruct (Z.compare_spec e1 e2), (Pos.compare_spec m1 m2);
    split; simpl; intros E; try discriminate; try reflexivity; try lia.
Qed.

Ltac ltb_of_compare :=
  match goal with
  | |- context [match ?c with Eq => false | Lt => true | Gt => false end] =>
    let E := fresh "E" in destruct c eqn:E; try discriminate; try reflexivity
  end.

Lemma SFltb_trans (a b c : SpecFloat.spec_float) :
  SpecFloat.SFltb a b = true -> SpecFloat.SFltb b c = true ->
  SpecFloat.SFltb a c = true.
Proof.
  unfold SpecFloat.SFltb, SpecFloat.SFcompare.
  destruct a as [sa|sa| |sa ma ea], b as [sb|sb| |sb mb eb],
           c as [sc|sc| |sc mc ec];
    try destruct sa; try destruct sb; try destruct sc;
    intros H1 H2; try discriminate; try reflexivity.
  - assert (L1 : match Z.compare ea eb with
                 | Lt => Gt | Gt => Lt
                 | Eq => CompOpp (Pos.compare_cont Eq ma mb) end = Lt)
      by (revert H1; ltb_of_compare).
    assert (L2 : match Z.compare eb ec with
                 | Lt => Gt | Gt => Lt
                 | Eq => CompOpp (Pos.compare_cont Eq mb mc) end = Lt)
      by (revert H2; ltb_of_compare).
    apply lex_compare_opp_Lt in L1. apply lex_compare_opp_Lt in L2.
    assert (L3 : match Z.compare ea ec with
                 | Lt => Gt | Gt => Lt
                 | Eq => CompOpp (Pos.compare_cont Eq ma mc) end = Lt)
      by (apply lex_compare_opp_Lt; lia).
    rewrite L3. reflexivity.
  - assert (L1 : match Z.compare ea eb with
                 | Lt => Lt | Gt => Gt
                 | Eq => Pos.compare_cont Eq ma mb end = Lt)
      by (revert H1; ltb_of_compare).
    assert (L2 : match Z.compare eb ec with
                 | Lt => Lt | Gt => Gt
                 | Eq => Pos.compare_cont Eq mb mc end = Lt)
      by (revert H2; ltb_of_compare).
    apply lex_compare_Lt in L1. apply lex_compare_Lt in L2.
    assert (L3 : match Z.compare ea ec with
                 | Lt => Lt | Gt => Gt
                 | Eq => Pos.compare_cont Eq ma mc end = Lt)
      by (apply lex_compare_Lt; lia).
    rewrite L3. reflexivity.
Qed.

#[export] Instance NumberOrder_float : NumberOrder float.
Proof.
  split.
  - intros a. simpl. rewrite FloatAxioms.ltb_spec. apply SFltb_irrefl.
  - intros a b c. simpl. rewrite !FloatAxioms.ltb_spec. apply SFltb_trans.
Qed.

(* ================================================================= *)
(** ** Clamping in binary64 *)

Lemma SFcompare_refl (a : SpecFloat.spec_float) :
  a <> SpecFloat.S754_nan -> SpecFloat.SFcompare a a = Some Eq.
Proof.
  unfold SpecFloat.SFcompare.
  destruct a as [s|s| |s m e]; intros N; try destruct s; try reflexivity;
    try (exfalso; apply N; reflexivity);
    rewrite Z.compare_refl;
    change (Pos.compare_cont Eq m m) with (Pos.compare m m);
    rewrite Pos.compare_refl; reflexivity.
Qed.

(** Only numbers compare: if [a < b] then neither is NaN. *)
Lemma float_ltb_not_nan (a b : float) :
  PrimFloat.ltb a b = true ->
  PrimFloat.is_nan a = false /\ PrimFloat.is_nan b = false.
Proof.
  unfold PrimFloat.is_nan.
  rewrite FloatAxioms.ltb_spec, !FloatAxioms.eqb_spec.
  unfold SpecFloat.SFltb, SpecFloat.SFeqb. intros L.
  assert (Na : Prim2SF a <> SpecFloat.S754_nan).
  { intros E. rewrite E in L. discriminate. }
  assert (Nb : Prim2SF b <> SpecFloat.S754_nan).
  { intros E. rewrite E in L. destruct (Prim2SF a); discriminate. }
  rewrite (SFcompare_refl _ Na), (SFcompare_refl _ Nb). split; reflexivity.
Qed.

Lemma float_ltb_trans (a b c : float) :
  PrimFloat.ltb a b = true -> PrimFloat.ltb b c = true ->
  PrimFloat.ltb a c = true.
Proof. rewrite !FloatAxioms.ltb_spec. apply SFltb_trans. Qed.

Lemma float_ltb_asym (a b : float) :
  PrimFloat.ltb a b = true -> PrimFloat.ltb b a = false.
Proof.
  intros L. destruct (PrimFloat.ltb b a) eqn:G; [|reflexivity].
  pose proof (float_ltb_trans a b a L G) as C.
  rewrite FloatAxioms.ltb_spec, SFltb_irrefl in C. discriminate.
Qed.

(** A float equal to zero is one of the two zeros. *)
Lemma float_eqb_zero (t : float) :
  PrimFloat.eqb t PrimFloat.zero = true ->
  t = PrimFloat.zero \/ t = PrimFloat.neg_zero.
Proof.
  rewrite FloatAxioms.eqb_spec. intros E.
  assert (Z0 : exists s, Prim2SF t = SpecFloat.S754_zero s).
  { change (Prim2SF PrimFloat.zero) with (SpecFloat.S754_zero false) in E.
    unfold SpecFloat.SFeqb, SpecFloat.SFcompare in E.
    destruct (Prim2SF t) as [s|s| |s m e]; try destruct s; try discriminate;
      eexists; reflexivity. }
  destruct Z0 as (s & Z0).
  rewrite <- (FloatAxioms.SF2Prim_Prim2SF t), Z0.
  destruct s; [right|left]; reflexivity.
Qed.

Lemma float_min_lt (a b : float) :
  PrimFloat.ltb a b = true -> float_min a b = a.
Proof.
  intros L. destruct (float_ltb_not_nan _ _ L) as (Na & Nb).
  unfold float_min. rewrite Na, Nb, L. reflexivity.
Qed.

Lemma float_min_gt (a b : float) :
  PrimFloat.ltb b a = true -> float_min a b = b.
Proof.
  intros L. destruct (float_ltb_not_nan _ _ L) as (Nb & Na).
  unfold float_min. rewrite Na, Nb, L, (float_ltb_asym _ _ L). reflexivity.
Qed.

Lemma float_max_lt (a b : float) :
  PrimFloat.ltb a b = true -> float_max a b = b.
Proof.
  intros L. destruct (float_ltb_not_nan _ _ L) as (Na & Nb).
  unfold float_max. rewrite Na, Nb, L. reflexivity.
Qed.

Lemma float_max_gt (a b : float) :
  PrimFloat.ltb b a = true -> float_max a b = a.
Proof.
  intros L. destruct (float_ltb_not_nan _ _ L) as (Nb & Na).
  unfold float_max. rewrite Na, Nb, L, (float_ltb_asym _ _ L). reflexivity.
Qed.

Lemma float_min_nan (a b : float) :
  PrimFloat.is_nan b = true -> float_min a b = PrimFloat.nan.
Proof.
  intros N. unfold float_min. rewrite N, orb_true_r. reflexivity.
Qed.

(** [Math.max(0, Math.min(1, t))] on binary64, case by case. *)
Lemma float_clamp_cases (t : float) :
  let clamped := nmax (fromZ 0) (nmin (fromZ 1) t) in
  (PrimFloat.is_nan t = true -> PrimFloat.is_nan clamped = true)
  /\ (PrimFloat.ltb t PrimFloat.zero = true -> clamped = PrimFloat.zero)
  /\ (PrimFloat.eqb t PrimFloat.zero = true -> clamped = PrimFloat.zero)
  /\ (PrimFloat.ltb PrimFloat.zero t = true ->
      PrimFloat.ltb PrimFloat.one t = false -> clamped = t)
  /\ (PrimFloat.ltb PrimFloat.one t = true -> clamped = PrimFloat.one).
Proof.
  cbv zeta.
  change (nmax (fromZ 0) (nmin (fromZ 1) t))
    with (float_max PrimFloat.zero (float_min PrimFloat.one t)).
  assert (L01 : PrimFloat.ltb PrimFloat.zero PrimFloat.one = true)
    by reflexivity.
  split; [|split; [|split; [|split]]].
  - intros N. rewrite (float_min_nan _ _ N). reflexivity.
  - intros L.
    assert (L1 : PrimFloat.ltb t PrimFloat.one = true)
      by exact (float_ltb_trans t PrimFloat.zero PrimFloat.one L L01).
    rewrite (float_min_gt _ _ L1). apply float_max_gt, L.
  - intros E. destruct (float_eqb_zero t E) as [-> | ->]; reflexivity.
  - intros L G. destruct (float_ltb_not_nan _ _ L) as (_ & Nt).
    assert (M : float_min PrimFloat.one t = t).
    { destruct (PrimFloat.ltb t PrimFloat.one) eqn:L1.
      - apply float_min_gt, L1.
      - unfold float_min. rewrite Nt, G, L1. reflexivity. }
    rewrite M. apply float_max_lt, L.
  - intros L. rewrite (float_min_lt _ _ L). reflexivity.
Qed.

(** *** NaN through the arithmetic *)

Lemma is_nan_eq (t : float) : PrimFloat.is_nan t = true -> t = PrimFloat.nan.
Proof.
  unfold PrimFloat.is_nan. rewrite negb_true_iff, FloatAxioms.eqb_spec.
  intros E. rewrite <- (FloatAxioms.SF2Prim_Prim2SF t).
  unfold SpecFloat.SFeqb in E.
  destruct (Prim2SF t) as [s|s| |s m e] eqn:P; try reflexivity;
    rewrite SFcompare_refl in E; discriminate.
Qed.

Lemma float_mul_nan (u : float) : PrimFloat.mul u PrimFloat.nan = PrimFloat.nan.
Proof.
  rewrite <- (FloatAxioms.SF2Prim_Prim2SF (PrimFloat.mul u PrimFloat.nan)).
  rewrite FloatAxioms.mul_spec.
  change (Prim2SF PrimFloat.nan) with SpecFloat.S754_nan.
  destruct (Prim2SF u); reflexivity.
Qed.

Lemma float_nan_mul (u : float) : PrimFloat.mul PrimFloat.nan u = PrimFloat.nan.
Proof.
  rewrite <- (FloatAxioms.SF2Prim_Prim2SF (PrimFloat.mul PrimFloat.nan u)).
  rewrite FloatAxioms.mul_spec.
  change (Prim2SF PrimFloat.nan) with SpecFloat.S754_nan. reflexivity.
Qed.

Lemma float_add_nan (u : float) : PrimFloat.add u PrimFloat.nan = PrimFloat.nan.
Proof.
  rewrite <- (FloatAxioms.SF2Prim_Prim2SF (PrimFloat.add u PrimFloat.nan)).
  rewrite FloatAxioms.add_spec.
  change (Prim2SF PrimFloat.nan) with SpecFloat.S754_nan.
  destruct (Prim2SF u); reflexivity.
Qed.

Lemma float_nan_add (u : float) : PrimFloat.add PrimFloat.nan u = PrimFloat.nan.
Proof.
  rewrite <- (FloatAxioms.SF2Prim_Prim2SF (PrimFloat.add PrimFloat.nan u)).
  rewrite FloatAxioms.add_spec.
  change (Prim2SF PrimFloat.nan) with SpecFloat.S754_nan. reflexivity.
Qed.

Lemma float_sub_nan (u : float) : PrimFloat.sub u PrimFloat.nan = PrimFloat.nan.
Proof.
  rewrite <- (FloatAxioms.SF2Prim_Prim2SF (PrimFloat.sub u PrimFloat.nan)).
  rewrite FloatAxioms.sub_spec.
  change (Prim2SF PrimFloat.nan) with SpecFloat.S754_nan.
  destruct (Prim2SF u); reflexivity.
Qed.

(** *** [pointLineDistance] on binary64, case by case *)

Lemma pointLineDistance_parts {T : Type} `{Number T} (p a b : Vec3 T) :
  pointLineDistance p a b =
  if neqb (squaredLength a b) (fromZ 0) then distance p a
  else distance p (pointAt a b
                     (nmax (fromZ 0) (nmin (fromZ 1) (projection p a b)))).
Proof. reflexivity. Qed.

Lemma pointLineDistance_binary64 (p a b : Vec3 float) :
  let t := projection p a b in
  (PrimFloat.eqb (squaredLength a b) PrimFloat.zero = true ->
   pointLineDistance p a b = distance p a)
  /\ (PrimFloat.eqb (squaredLength a b) PrimFloat.zero = false ->
      (PrimFloat.ltb t PrimFloat.zero = true
       \/ PrimFloat.eqb t PrimFloat.zero = true ->
       pointLineDistance p a b = distance p (pointAt a b PrimFloat.zero))
      /\ (PrimFloat.ltb PrimFloat.zero t = true ->
          PrimFloat.ltb PrimFloat.one t = false ->
          pointLineDistance p a b = distance p (pointAt a b t))
      /\ (PrimFloat.ltb PrimFloat.one t = true ->
          pointLineDistance p a b = distance p (pointAt a b PrimFloat.one))
      /\ (PrimFloat.is_nan t = true ->
          PrimFloat.is_nan (pointLineDistance p a b) = true)).
Proof.
  intros t. rewrite pointLineDistance_parts. fold t.
  change (neqb (squaredLength a b) (fromZ 0))
    with (PrimFloat.eqb (squaredLength a b) PrimFloat.zero).
  split; [intros E; rewrite E; reflexivity|].
  intros E. rewrite E.
  destruct (float_clamp_cases t) as (Cn & Cl & Ce & Cm & Cg). cbv zeta in *.
  split; [|split; [|split]].
  - intros [L|Z0]; [rewrite (Cl L) | rewrite (Ce Z0)]; reflexivity.
  - intros L G. rewrite (Cm L G). reflexivity.
  - intros L. rewrite (Cg L). reflexivity.
  - intros N. rewrite (is_nan_eq _ (Cn N)).
    unfold distance, pointAt. cbn [x y z nadd nsub nmul nsqrt Number_float].
    rewrite !float_mul_nan, !float_add_nan, !float_sub_nan, !float_nan_mul,
      !float_nan_add.
    reflexivity.
Qed.

(* ================================================================= *)
(** ** Segment distance *)

Section RealGeometry.
Local Open Scope R_scope.

Lemma clamp_bounds (t : R) : 0 <= Rmax 0 (Rmin 1 t) <= 1.
Proof.
  unfold Rmax, Rmin.
  destruct (Rle_dec 1 t); destruct (Rle_dec 0 _); lra.
Qed.

Lemma clamp_cases (t : R) :
  (0 <= t <= 1 /\ Rmax 0 (Rmin 1 t) = t)
  \/ (t <= 0 /\ Rmax 0 (Rmin 1 t) = 0)
  \/ (1 <= t /\ Rmax 0 (Rmin 1 t) = 1).
Proof.
  unfold Rmax, Rmin.
  destruct (Rle_dec 1 t); destruct (Rle_dec 0 _); lra.
Qed.

Lemma pointLineDistance_real (p a b : Vec3 R) :
  pointLineDistance p a b =
  let ab2 := (x b - x a) * (x b - x a) + (y b - y a) * (y b - y a)
             + (z b - z a) * (z b - z a) in
  let t := if R_eqb ab2 0 then 0
           else Rmax 0 (Rmin 1 (((x p - x a) * (x b - x a)
                                 + (y p - y a) * (y b - y a)
                                 + (z p - z a) * (z b - z a)) / ab2)) in
  euclidean p (linePoint a b t).
Proof.
  unfold pointLineDistance, euclidean, linePoint. simpl.
  destruct (R_eqb _ 0); simpl; f_equal; ring.
Qed.

Lemma quadratic_minimum (ux uy uz wx wy wz s t t0 : R) :
  0 < ux * ux + uy * uy + uz * uz ->
  t0 * (ux * ux + uy * uy + uz * uz) = wx * ux + wy * uy + wz * uz ->
  0 <= s <= 1 ->
  (0 <= t0 <= 1 /\ t = t0) \/ (t0 <= 0 /\ t = 0) \/ (1 <= t0 /\ t = 1) ->
  (wx - ux * t) * (wx - ux * t) + (wy - uy * t) * (wy - uy * t)
  + (wz - uz * t) * (wz - uz * t)
  <= (wx - ux * s) * (wx - ux * s) + (wy - uy * s) * (wy - uy * s)
     + (wz - uz * s) * (wz - uz * s).
Proof.
  intros Pos Dot Hs Ht.
  set (ab2 := ux * ux + uy * uy + uz * uz) in *.
  assert (E : (wx - ux * s) * (wx - ux * s) + (wy - uy * s) * (wy - uy * s)
              + (wz - uz * s) * (wz - uz * s)
              - ((wx - ux * t) * (wx - ux * t) + (wy - uy * t) * (wy - uy * t)
                 + (wz - uz * t) * (wz - uz * t))
              = ab2 * ((s - t) * (s + t - 2 * t0))).
  { transitivity ((s - t) * (ab2 * (s + t)
                             - 2 * (wx * ux + wy * uy + wz * uz))).
    - unfold ab2. ring.
    - rewrite <- Dot. ring. }
  assert (N : 0 <= (s - t) * (s + t - 2 * t0)).
  { clear E Dot Pos. destruct Ht as [[B E]|[[B E]|[B E]]]; subst t.
    - replace ((s - t0) * (s + t0 - 2 * t0)) with ((s - t0) * (s - t0))
        by ring.
      apply Rle_0_sqr.
    - apply Rmult_le_pos; lra.
    - replace ((s - 1) * (s + 1 - 2 * t0)) with ((1 - s) * (2 * t0 - 1 - s))
        by ring.
      apply Rmult_le_pos; lra. }
  pose proof (Rmult_le_pos _ _ (Rlt_le _ _ Pos) N) as M.
  lra.
Qed.

Lemma sum_squares_nonneg (ux uy uz : R) :
  0 <= ux * ux + uy * uy + uz * uz.
Proof.
  pose proof (Rle_0_sqr ux). pose proof (Rle_0_sqr uy).
  pose proof (Rle_0_sqr uz). unfold Rsqr in *. lra.
Qed.

Lemma sum_squares_zero (ux uy uz : R) :
  ux * ux + uy * uy + uz * uz = 0 -> ux = 0 /\ uy = 0 /\ uz = 0.
Proof. intros E. repeat split; nra. Qed.

(** The parameter [pointLineDistance] measures at lies in [0, 1], and no
    point of the segment is nearer. *)
Lemma pointLineDistance_minimal (p a b : Vec3 R) :
  (exists q, onSegment a b q /\ pointLineDistance p a b = euclidean p q)
  /\ (forall q, onSegment a b q -> pointLineDistance p a b <= euclidean p q).
Proof.
  rewrite pointLineDistance_real. cbv zeta.
  set (ab2 := (x b - x a) * (x b - x a) + (y b - y a) * (y b - y a)
              + (z b - z a) * (z b - z a)).
  set (t0 := ((x p - x a) * (x b - x a) + (y p - y a) * (y b - y a)
              + (z p - z a) * (z b - z a)) / ab2).
  unfold R_eqb. destruct (Req_dec_T ab2 0) as [Z0|NZ].
  - split.
    + exists (linePoint a b 0). split; [|reflexivity].
      exists 0. split; [lra|reflexivity].
    + intros q (s & Hs & ->).
      destruct (sum_squares_zero _ _ _ Z0) as (Ex & Ey & Ez).
      unfold euclidean, linePoint. simpl. rewrite Ex, Ey, Ez.
      apply Req_le. f_equal. ring.
  - split.
    + exists (linePoint a b (Rmax 0 (Rmin 1 t0))). split; [|reflexivity].
      exists (Rmax 0 (Rmin 1 t0)). split; [apply clamp_bounds|reflexivity].
    + intros q (s & Hs & ->).
      unfold euclidean, linePoint. simpl. apply sqrt_le_1_alt.
      assert (Pos : 0 < ab2).
      { pose proof (sum_squares_nonneg (x b - x a) (y b - y a) (z b - z a)).
        fold ab2 in H. lra. }
      assert (Dot : t0 * ab2 = (x p - x a) * (x b - x a)
                               + (y p - y a) * (y b - y a)
                               + (z p - z a) * (z b - z a)).
      { unfold t0. field. exact NZ. }
      pose proof (quadratic_minimum (x b - x a) (y b - y a) (z b - z a)
                    (x p - x a) (y p - y a) (z p - z a)
                    s (Rmax 0 (Rmin 1 t0)) t0 Pos Dot Hs (clamp_cases t0))
        as Q.
      lra.
Qed.

Lemma euclidean_nonneg (p q : Vec3 R) : 0 <= euclidean p q.
Proof. unfold euclidean. apply sqrt_pos. Qed.

Lemma euclidean_zero (p q : Vec3 R) : euclidean p q = 0 <-> p = q.
Proof.
  unfold euclidean. split.
  - intros E. apply sqrt_eq_0 in E; [|apply sum_squares_nonneg].
    destruct (sum_squares_zero _ _ _ E) as (Ex & Ey & Ez).
    destruct p, q. simpl in *. f_equal; lra.
  - intros ->.
    replace ((x q - x q) * (x q - x q) + (y q - y q) * (y q - y q)
             + (z q - z q) * (z q - z q)) with 0 by ring.
    apply sqrt_0.
Qed.

Lemma onSegment_swap (a b q : Vec3 R) : onSegment a b q -> onSegment b a q.
Proof.
  intros (s & Hs & ->). exists (1 - s). split; [lra|].
  unfold linePoint. f_equal; ring.
Qed.

Lemma onSegment_start (a b : Vec3 R) : onSegment a b a.
Proof.
  exists 0. split; [lra|]. destruct a. unfold linePoint. simpl.
  f_equal; ring.
Qed.

Lemma onSegment_end (a b : Vec3 R) : onSegment a b b.
Proof. apply onSegment_swap. apply onSegment_start. Qed.

(** A point of the segment is at distance 0. *)
Lemma pointLineDistance_on_segment (p a b : Vec3 R) :
  onSegment a b p -> pointLineDistance p a b = 0.
Proof.
  intros Sp.
  destruct (pointLineDistance_minimal p a b) as ((q & Sq & Eq) & Min).
  apply Rle_antisym.
  - replace 0 with (euclidean p p) by (apply euclidean_zero; reflexivity).
    apply Min. exact Sp.
  - rewrite Eq. apply euclidean_nonneg.
Qed.

End RealGeometry.

Example pld_float_endpoint :
  pointLineDistance (T := float) (vecZ 0 0 0) (vecZ 1 0 0) (vecZ 2 0 0)
  = PrimFloat.one.
Proof. vm_compute. reflexivity. Qed.

Example pld_float_345 :
  pointLineDistance (T := float) (vecZ 0 0 0) (vecZ 3 4 0) (vecZ 3 4 0)
  = float_of_Z 5.
Proof. vm_compute. reflexivity. Qed.

Section GeometryTheorems.
Local Open Scope R_scope.

Lemma pointLineDistance_real_example :
  pointLineDistance (T := R) (vecZ 0 0 0) (vecZ 1 0 0) (vecZ 2 0 0) = 1.
Proof.
  rewrite pointLineDistance_real. unfold vecZ. simpl.
  replace ((2 - 1) * (2 - 1) + (0 - 0) * (0 - 0) + (0 - 0) * (0 - 0))
    with 1 by ring.
  unfold R_eqb. destruct (Req_dec_T 1 0) as [E|_]; [exfalso; lra|].
  replace (((0 - 1) * (2 - 1) + (0 - 0) * (0 - 0) + (0 - 0) * (0 - 0)) / 1)
    with (-1) by field.
  replace (Rmax 0 (Rmin 1 (-1))) with 0.
  2:{ unfold Rmax, Rmin.
      destruct (Rle_dec 1 (-1)); [exfalso; lra|].
      destruct (Rle_dec 0 (-1)); [exfalso; lra|reflexivity]. }
  unfold euclidean, linePoint. simpl.
  replace ((0 - (1 + (2 - 1) * 0)) * (0 - (1 + (2 - 1) * 0))
           + (0 - (0 + (0 - 0) * 0)) * (0 - (0 + (0 - 0) * 0))
           + (0 - (0 + (0 - 0) * 0)) * (0 - (0 + (0 - 0) * 0)))
    with 1 by ring.
  apply sqrt_1.
Qed.

(** The infinite line through (1,0,0) and (2,0,0) passes through the
    origin (at parameter -1), at distance 0. *)
Lemma origin_on_infinite_line :
  euclidean (vecZ 0 0 0) (linePoint (vecZ 1 0 0) (vecZ 2 0 0) (-1)) = 0.
Proof.
  unfold euclidean, linePoint, vecZ. simpl.
  replace ((0 - (1 + (2 - 1) * -1)) * (0 - (1 + (2 - 1) * -1))
           + (0 - (0 + (0 - 0) * -1)) * (0 - (0 + (0 - 0) * -1))
           + (0 - (0 + (0 - 0) * -1)) * (0 - (0 + (0 - 0) * -1)))
    with 0 by ring.
  apply sqrt_0.
Qed.

(** C5.  Over the reals, [pointLineDistance p a b] is the distance from
    [p] to a point of the finite segment from [a] to [b], and no point
    of the segment is nearer: it is the minimum distance to the segment,
    not to the infinite line.  For P = (0,0,0) and the segment from
    (1,0,0) to (2,0,0) it is exactly 1, in exact arithmetic and in
    binary64, although the infinite line passes through P.

    In binary64 the function returns the rounded distance from [p] to
    the point of the line at the clamped parameter: with the squared
    length [ab2] and the parameter [t = AP.AB / ab2] as computed, it is
    the distance to [a] when [ab2] is zero, to the point at 0 when
    [t <= 0], to the point at [t] when [0 < t <= 1], to the point at 1
    when [t > 1], and NaN when [t] is NaN.  So (1.5,2,0), beside the
    segment from (1,0,0) to (2,0,0), and (4,0,0), beyond its end, are
    both at computed distance 2. *)
Theorem pointLineDistance_is_segment_distance :
  (forall p a b : Vec3 R,
      (exists q, onSegment a b q /\ pointLineDistance p a b = euclidean p q)
      /\ (forall q, onSegment a b q ->
                    pointLineDistance p a b <= euclidean p q))
  /\ pointLineDistance (T := R) (vecZ 0 0 0) (vecZ 1 0 0) (vecZ 2 0 0) = 1
  /\ pointLineDistance (T := float) (vecZ 0 0 0) (vecZ 1 0 0) (vecZ 2 0 0)
     = PrimFloat.one
  /\ euclidean (vecZ 0 0 0) (linePoint (vecZ 1 0 0) (vecZ 2 0 0) (-1)) = 0
  /\ (forall p a b : Vec3 float,
        let t := projection p a b in
        (PrimFloat.eqb (squaredLength a b) PrimFloat.zero = true ->
         pointLineDistance p a b = distance p a)
        /\ (PrimFloat.eqb (squaredLength a b) PrimFloat.zero = false ->
            (PrimFloat.ltb t PrimFloat.zero = true
             \/ PrimFloat.eqb t PrimFloat.zero = true ->
             pointLineDistance p a b
             = distance p (pointAt a b PrimFloat.zero))
            /\ (PrimFloat.ltb PrimFloat.zero t = true ->
                PrimFloat.ltb PrimFloat.one t = false ->
                pointLineDistance p a b = distance p (pointAt a b t))
            /\ (PrimFloat.ltb PrimFloat.one t = true ->
                pointLineDistance p a b
                = distance p (pointAt a b PrimFloat.one))
            /\ (PrimFloat.is_nan t = true ->
                PrimFloat.is_nan (pointLineDistance p a b) = true)))
  /\ pointLineDistance (T := float)
       (mkVec3 1.5%float 2%float 0%float) (vecZ 1 0 0) (vecZ 2 0 0)
     = 2%float
  /\ pointLineDistance (T := float) (vecZ 4 0 0) (vecZ 1 0 0) (vecZ 2 0 0)
     = 2%float.
Proof.
  split; [exact pointLineDistance_minimal|].
  split; [exact pointLineDistance_real_example|].
  split; [vm_compute; reflexivity|].
  split; [exact origin_on_infinite_line|].
  split; [exact pointLineDistance_binary64|].
  split; vm_compute; reflexivity.
Qed.

(** C5, counterexample.  P = (15,0,0) is a point of the segment from
    (0,0,0) to (55,0,0), so its distance to the segment is 0, and over
    the reals the function returns 0.  In binary64 the parameter 15/55
    is rounded, the point computed from it is not P, and the function
    returns 2^-49.  For P = (0,3,0) and the segment from (-2^520,0,0) to
    (2^520,0,0), which passes at distance 3, the squared length
    overflows and the function returns NaN. *)
Lemma on_segment_point_at_positive_distance :
  onSegment (vecZ 0 0 0) (vecZ 55 0 0) (vecZ 15 0 0)
  /\ pointLineDistance (T := R) (vecZ 15 0 0) (vecZ 0 0 0) (vecZ 55 0 0) = 0
  /\ pointLineDistance (T := float) (vecZ 15 0 0) (vecZ 0 0 0) (vecZ 55 0 0)
     = 0x1p-49%float
  /\ PrimFloat.ltb PrimFloat.zero
       (pointLineDistance (T := float)
          (vecZ 15 0 0) (vecZ 0 0 0) (vecZ 55 0 0)) = true
  /\ euclidean (vecZ 0 3 0) (vecZ 0 0 0) = 3
  /\ PrimFloat.is_nan
       (pointLineDistance (T := float) (vecZ 0 3 0)
          (mkVec3 (-0x1p520)%float 0%float 0%float)
          (mkVec3 0x1p520%float 0%float 0%float)) = true.
Proof.
  assert (S : onSegment (vecZ 0 0 0) (vecZ 55 0 0) (vecZ 15 0 0)).
  { exists (3 / 11). split; [lra|].
    unfold linePoint, vecZ. simpl. f_equal; field. }
  split; [exact S|].
  split; [apply pointLineDistance_on_segment; exact S|].
  split; [vm_compute; reflexivity|].
  split; [vm_compute; reflexivity|].
  split; [|vm_compute; reflexivity].
  unfold euclidean, vecZ. simpl.
  replace ((0 - 0) * (0 - 0) + (3 - 0) * (3 - 0) + (0 - 0) * (0 - 0))
    with (3 * 3) by ring.
  apply sqrt_square. lra.
Qed.

End GeometryTheorems.

Section GuardedDivision.
Context {T : Type} `{Number T}.


End GuardedDivision.


(* ================================================================= *)
(** ** Hit resolution and the distance to the segment *)

(** Over the reals the distance the hit test compares is attained on the
    segment and is the least distance to a point of it. *)
Lemma distanceTo_minimal (a b : Vec3 R) (p : Player R) :
  (exists q, onSegment a b q /\ distanceTo a b p = euclidean (position p) q)
  /\ (forall q, onSegment a b q ->
                (distanceTo a b p <= euclidean (position p) q)%R).
Proof. unfold distanceTo. apply pointLineDistance_minimal. Qed.

(** C4.  For a laserFire event from [id] with both positions present and
    [likelyHit] set, handled in a reachable state: the scan looks at
    exactly the entries of [players] other than [id] whose health is
    above 0, and compares the distance [pointLineDistance] computes from
    each one's position to the segment of the shot.  Either none of
    these computed distances is below [hitThreshold] (10), and then no
    player record, disconnected record or timer changes; or exactly one
    player [v] is damaged: [v] is one of the players looked at, its
    computed distance is below the threshold (so a player whose computed
    distance is 10 or more is never hit), no player looked at has a
    strictly smaller one, its health becomes [max 0 (health - 5)], the
    health of every other player is unchanged, and every record other
    than the victim's and the shooter's is unchanged.

    Over the reals the distance compared is the least distance from the
    player to a point of the segment.  In binary64 it is the rounded
    distance to the point of the line at the clamped parameter.  On a
    shot from (-5,0,0) to (5,0,0) by A, who stands on its path: B at
    (0,10,0), at computed distance exactly 10, is not hit and nothing
    changes; with C at (0,9.99,0) as well, C is hit and B is not; of B,
    C and D at (0,3,0), (0,2,0) and (0,4,0), C is hit. *)
Theorem hit_scan_selects_nearest :
  (forall (T : Type) (N : Number T) (O : NumberOrder T),

    forall now id (d : LaserData T) a b st,
      reachable st ->
      startPosition d = Some a -> endPosition d = Some b ->
      likelyHit d = true ->
      let st' := laserFire now id (Some d) st in
      let looksAt k p :=
        mget k (players st) = Some p /\ k <> id /\ 0 < health p in
      let near p := nltb (distanceTo a b p) hitThreshold = true in
      ((forall k p, looksAt k p -> ~ near p)
       /\ players st' = players st
       /\ disconnectedPlayers st' = disconnectedPlayers st
       /\ timers st' = timers st)
      \/
      (exists v target,
          looksAt v target /\ near target
          /\ (forall k p, looksAt k p ->
                nltb (distanceTo a b p) (distanceTo a b target) = false)
          /\ option_map (@health T) (mget v (players st'))
             = Some (Z.max 0 (health target - 5))
          /\ (forall k, k <> v ->
                option_map (@health T) (mget k (players st'))
                = option_map (@health T) (mget k (players st)))
          /\ (forall k, k <> v -> k <> id ->
                mget k (players st') = mget k (players st))
          /\ disconnectedPlayers st' = disconnectedPlayers st))
  /\ (forall (a b : Vec3 R) (p : Player R),
        (exists q,
            onSegment a b q /\ distanceTo a b p = euclidean (position p) q)
        /\ (forall q, onSegment a b q ->
                      (distanceTo a b p <= euclidean (position p) q)%R))
  /\ (forall (a b : Vec3 float) (p : Player float),
        let t := projection (position p) a b in
        (PrimFloat.eqb (squaredLength a b) PrimFloat.zero = true ->
         distanceTo a b p = distance (position p) a)
        /\ (PrimFloat.eqb (squaredLength a b) PrimFloat.zero = false ->
            (PrimFloat.ltb t PrimFloat.zero = true
             \/ PrimFloat.eqb t PrimFloat.zero = true ->
             distanceTo a b p
             = distance (position p) (pointAt a b PrimFloat.zero))
            /\ (PrimFloat.ltb PrimFloat.zero t = true ->
                PrimFloat.ltb PrimFloat.one t = false ->
                distanceTo a b p = distance (position p) (pointAt a b t))
            /\ (PrimFloat.ltb PrimFloat.one t = true ->
                distanceTo a b p
                = distance (position p) (pointAt a b PrimFloat.one))
            /\ (PrimFloat.is_nan t = true ->
                PrimFloat.is_nan (distanceTo a b p) = true)))
  /\ (option_map (distanceTo (vecZ (-5) 0 0) (vecZ 5 0 0))
                 (mget "B" (players onlyAtTen)) = Some 10%float
      /\ findClosest "A" (vecZ (-5) 0 0) (vecZ 5 0 0) (players onlyAtTen)
         = None
      /\ players (laserFire 2 "A" (Some shotAlongX) onlyAtTen)
         = players onlyAtTen)
  /\ (let st' := laserFire 2 "A" (Some shotAlongX) atTheThreshold in
      option_map (distanceTo (vecZ (-5) 0 0) (vecZ 5 0 0))
                 (mget "C" (players atTheThreshold))
      = Some 0x1.3fae147ae147bp+3%float
      /\ option_map (@health float) (mget "A" (players st')) = Some 100
      /\ option_map (@health float) (mget "B" (players st')) = Some 100
      /\ option_map (@health float) (mget "C" (players st')) = Some 95)
  /\ (let st' := laserFire 2 "A" (Some shotAlongX) threeInRange in
      option_map (@health float) (mget "A" (players st')) = Some 100
      /\ option_map (@health float) (mget "B" (players st')) = Some 100
      /\ option_map (@health float) (mget "C" (players st')) = Some 95
      /\ option_map (@health float) (mget "D" (players st')) = Some 100).
Proof.
  split; [intros T N O; exact (@hit_scan_outcome T N O)|].
  split; [exact distanceTo_minimal|].
  split.
  { intros a b p. exact (pointLineDistance_binary64 (position p) a b). }
  split; [vm_compute; repeat split|].
  split; vm_compute; repeat split.
Qed.

(** C4, counterexample.  B stands at (-2,10,0) and A fires from the
    origin to (36,15,0).  Every point of the segment is at distance 10
    or more from B, and the point at parameter 2/39 is at distance 10:
    B is at distance exactly 10.  In binary64 the distance computed is
    9.9999999999999982, below the threshold, and B is hit. *)
Lemma exactly_ten_away_is_hit :
  (forall q, onSegment (vecZ 0 0 0) (vecZ 36 15 0) q ->
             (10 <= euclidean (vecZ (-2) 10 0) q)%R)
  /\ euclidean (vecZ (-2) 10 0)
               (linePoint (vecZ 0 0 0) (vecZ 36 15 0) (2 / 39)) = 10%R
  /\ pointLineDistance (T := R) (vecZ (-2) 10 0) (vecZ 0 0 0) (vecZ 36 15 0)
     = 10%R
  /\ option_map (@position float) (mget "B" (players tenAway))
     = Some (vecZ (-2) 10 0)
  /\ option_map (distanceTo (vecZ 0 0 0) (vecZ 36 15 0))
                (mget "B" (players tenAway))
     = Some 0x1.3ffffffffffffp+3%float
  /\ option_map (@health float) (mget "B" (players tenAway)) = Some 100
  /\ option_map (@health float)
       (mget "B" (players (laserFire 2 "A" (Some slantedShot) tenAway)))
     = Some 95.
Proof.
  assert (Far : forall q, onSegment (vecZ 0 0 0) (vecZ 36 15 0) q ->
                          (10 <= euclidean (vecZ (-2) 10 0) q)%R).
  { intros q (s & Hs & ->). unfold euclidean, linePoint, vecZ. simpl.
    rewrite <- (sqrt_square 10) at 1 by lra.
    apply sqrt_le_1_alt.
    pose proof (Rle_0_sqr (39 * s - 2)) as Sq. unfold Rsqr in Sq. lra. }
  assert (At : euclidean (vecZ (-2) 10 0)
                 (linePoint (vecZ 0 0 0) (vecZ 36 15 0) (2 / 39)) = 10%R).
  { unfold euclidean, linePoint, vecZ. simpl.
    match goal with
    | |- R_sqrt.sqrt ?e = _ => replace e with (10 * 10)%R by field
    end.
    apply sqrt_square. lra. }
  split; [exact Far|]. split; [exact At|]. split.
  { destruct (pointLineDistance_minimal
                (vecZ (-2) 10 0) (vecZ 0 0 0) (vecZ 36 15 0))
      as ((q & Sq & Eq) & Min).
    apply Rle_antisym.
    - rewrite <- At. apply Min. exists (2 / 39)%R. split; [lra|reflexivity].
    - rewrite Eq. apply Far. exact Sq. }
  vm_compute. repeat split.
Qed.

(* ================================================================= *)
(** ** The [recentlyHit] flag and its timers *)

Section RecentlyHit.
Context {T : Type} `{Number T}.
Implicit Types (st : Server T) (id : Id) (now : Z).

Lemma timerCallback_flag w v st :
  flagOf v (timerCallback w st) =
  if String.eqb v w then option_map (fun _ => false) (flagOf v st)
  else flagOf v st.
Proof.
  unfold flagOf.
  destruct (timerCallback_registries w st) as (Ep & _).
  rewrite Ep, mget_mupdate.
  destruct (String.eqb_spec v w); [subst w|reflexivity].
  destruct (mget v (players st)); reflexivity.
Qed.

Lemma callbacks_keep_cleared (l : list (Z * Id)) v st :
  flagOf v st = Some false ->
  flagOf v (fold_left (fun s t => timerCallback (snd t) s) l st) = Some false.
Proof.
  revert st. induction l as [|t l IH]; simpl; intros st F; [exact F|].
  apply IH. rewrite timerCallback_flag, F.
  destruct (String.eqb v (snd t)); reflexivity.
Qed.

Lemma callbacks_clear (l : list (Z * Id)) due v st :
  In (due, v) l -> mhas v (players st) = true ->
  flagOf v (fold_left (fun s t => timerCallback (snd t) s) l st) = Some false.
Proof.
  revert st. induction l as [|t l IH]; simpl; intros st I A; [contradiction|].
  destruct I as [E|I].
  - subst t. apply callbacks_keep_cleared.
    rewrite timerCallback_flag. simpl. rewrite String.eqb_refl.
    unfold flagOf, mhas in *. destruct (mget v (players st)); [|discriminate].
    reflexivity.
  - apply (IH _ I).
    destruct (timerCallback_registries (snd t) st) as (Ep & _).
    rewrite Ep, mhas_mupdate. exact A.
Qed.

Lemma callbacks_timers (l : list (Z * Id)) st :
  timers (fold_left (fun s t => timerCallback (snd t) s) l st) = timers st.
Proof.
  revert st. induction l as [|t l IH]; simpl; intros st; [reflexivity|].
  rewrite IH.
  destruct (timerCallback_registries (snd t) st) as (_ & _ & _ & _ & Et & _).
  exact Et.
Qed.

(** C8, as amended.  Every hit sets the victim's [recentlyHit] to true
    and adds one more pending reset, due 500 ms later, behind the ones
    already pending: none is cancelled or replaced.  When the timers
    run, each reset whose delay has elapsed sets the flag of its player
    to false if that player is in [players], whatever hits came after
    the reset was scheduled, and only the resets that ran are
    forgotten. *)
Theorem recentlyHit_resets_stack :
  (forall now id (d : LaserData T) a b v st,
      startPosition d = Some a -> endPosition d = Some b ->
      likelyHit d = true ->
      findClosest id a b (players st) = Some v ->
      mhas v (players st) = true ->
      let st' := laserFire now id (Some d) st in
      flagOf v st' = Some true
      /\ timers st' = timers st ++ [(now + RECENTLY_HIT_DELAY, v)])
  /\ (forall now due v st,
         In (due, v) (timers st) -> due <= now ->
         mhas v (players st) = true ->
         flagOf v (runTimers now st) = Some false)
  /\ (forall now st,
         timers (runTimers now st)
         = filter (fun t => negb (isDue now t)) (timers st)).
Proof.
  split; [|split].
  - intros now id d a b v st Ha Hb Hl Hf A st'.
    destruct (laserFire_registries now id d st) as (Ep & _ & _ & Et & _).
    fold st' in Ep, Et.
    assert (Eh : hitResult now id d st = applyDamage now id v st).
    { unfold hitResult. rewrite Ha, Hb, Hl, Hf. reflexivity. }
    rewrite Eh in Ep, Et. unfold flagOf. rewrite Ep, Et. split.
    + rewrite applyDamage_target.
      unfold mhas in A. destruct (mget v (players st)); [|discriminate].
      reflexivity.
    + unfold applyDamage, mhas in *.
      destruct (mget v (players st)); [reflexivity|discriminate].
  - intros now due v st I D A. unfold runTimers.
    apply (callbacks_clear _ due); [|exact A].
    apply filter_In. split; [exact I|].
    unfold isDue. simpl. apply Z.leb_le. exact D.
  - intros now st. unfold runTimers. rewrite callbacks_timers. reflexivity.
Qed.

End RecentlyHit.

(* ================================================================= *)
(** ** The scenarios *)

Lemma health_within_bounds_witness :
  0 <= health (newPlayer (T := float) 0 "A") <= 100.
Proof.
  apply (proj1 (health_within_bounds (T := float))
               [(0, Connect "A")] "A"%string).
  left. reflexivity.
Defined.

Lemma players_lastSeen_same_ids_witness :
  sameIds (step (clearPlayerData (T := float)) (0, Connect "A")).
Proof.
  destruct (players_lastSeen_same_ids (T := float))
    as (_ & _ & _ & _ & _ & _ & _ & S & _).
  apply S. intros k. reflexivity.
Defined.

Lemma reconnect_restores_record_witness :
  exists restored : Player float,
    mget "V" (players (onConnection 5000 "V" veteranAway)) = Some restored
    /\ timestamp restored = 5000
    /\ health restored = 40
    /\ kills restored = 3
    /\ nickname restored = "Vet"%string
    /\ mget "V" (disconnectedPlayers (onConnection 5000 "V" veteranAway))
       = None.
Proof.
  destruct (reconnect_restores_record 5000 "V"%string veteranAway veteran
              eq_refl)
    as (_ & (restored & G & Ts & _ & _ & _ & _ & Nn & _ & Hh & Kk & _)
        & _ & _ & Gone).
  exists restored. repeat split; assumption.
Defined.

(** C2, counterexample.  A timed out and sits in [disconnectedPlayers]
    with 0 kills; its channel is still open and it fires.  B goes from
    health 5 to 0 and has its kills reset, but the kills counter of A
    stays 0: it is not increased by 1. *)
Lemma kill_without_credit :
  let st := shooterTimedOut in
  let st' := laserFire 20001 "A" shotAtOrigin st in
  findClosest "A" (vecZ 0 0 0) (vecZ 0 0 0) (players st) = Some "B"%string
  /\ option_map (@health float) (mget "B" (players st)) = Some 5
  /\ option_map (@health float) (mget "B" (players st')) = Some 0
  /\ option_map (@kills float) (mget "B" (players st')) = Some 0
  /\ mget "A" (players st) = None
  /\ killsOf "A" st = Some 0
  /\ killsOf "A" st' = Some 0
  /\ killsOf "A" st' <> option_map (fun k => k + 1) (killsOf "A" st).
Proof.
  vm_compute. repeat split; try reflexivity. discriminate.
Qed.

Lemma kill_coupling_witness :
  option_map (@kills float)
    (mget "B" (players (laserFire 2 "A" shotAtOrigin oneHitLeft))) = Some 0
  /\ option_map (@kills float)
       (mget "A" (players (laserFire 2 "A" shotAtOrigin oneHitLeft))) = Some 1.
Proof.
  assert (G : exists target : Player float,
             mget "B" (players oneHitLeft) = Some target
             /\ health target = 5).
  { vm_compute. eexists. split; reflexivity. }
  destruct G as (target & G & H5).
  assert (F : findClosest "A" (vecZ 0 0 0) (vecZ 0 0 0) (players oneHitLeft)
              = Some "B"%string) by (vm_compute; reflexivity).
  destruct (kill_coupling 2 "A"%string shotData (vecZ 0 0 0) (vecZ 0 0 0)
              "B"%string oneHitLeft target
              eq_refl eq_refl eq_refl F G) as (_ & _ & K & _).
  destruct K as (Kv & Ks & _); [rewrite H5; reflexivity
                               | rewrite H5; reflexivity |].
  unfold shotAtOrigin. split; [exact Kv|]. rewrite Ks. vm_compute. reflexivity.
Defined.

(** C8, counterexample.  B is hit at 1000 ms and at 1400 ms: two resets
    are pending, due at 1500 and 1900.  When the timers run at 1500 the
    first one sets the flag to false, 100 ms after the latest hit and
    400 ms before the 500 ms since that hit have elapsed. *)
Lemma second_hit_does_not_extend_flag :
  timers hitTwice = [(1500, "B"%string); (1900, "B"%string)]
  /\ flagOf "B" hitTwice = Some true
  /\ flagOf "B" (runTimers 1500 hitTwice) = Some false
  /\ timers (runTimers 1500 hitTwice) = [(1900, "B"%string)].
Proof. vm_compute. repeat split. Qed.

Lemma recentlyHit_resets_stack_witness :
  flagOf "B" (laserFire 1000 "A" shotAtOrigin twoPlayers) = Some true
  /\ timers (laserFire 1000 "A" shotAtOrigin twoPlayers)
     = timers twoPlayers ++ [(1000 + RECENTLY_HIT_DELAY, "B"%string)].
Proof.
  unfold shotAtOrigin.
  apply (proj1 (recentlyHit_resets_stack (T := float)) 1000 "A"%string
               shotData (vecZ 0 0 0) (vecZ 0 0 0) "B"%string twoPlayers);
    vm_compute; reflexivity.
Defined.

(** C7.  P connects at 0 and disconnects at 9000 ms.  The record kept in
    [disconnectedPlayers] still carries the timestamp of its last update
    (0), not the time of the disconnect: the sweep at 65000 ms, 56 s
    after the disconnect, purges it, and a reconnection at 66000 ms gets
    a fresh record (health 100) instead of the stored one (health 95).
    The record was removed from [players] and playerLeft was sent. *)
Theorem disconnect_keeps_last_update_stamp :
  option_map (@timestamp float) (mget "P" (disconnectedPlayers leftAtNine))
  = Some 0
  /\ option_map (@health float) (mget "P" (disconnectedPlayers leftAtNine))
     = Some 95
  /\ mget "P" (players leftAtNine) = None
  /\ In (EmitPlayerLeft "P") (emitted leftAtNine)
  /\ mget "P" (disconnectedPlayers (sweep 65000 leftAtNine)) = None
  /\ option_map (@health float)
       (mget "P" (players (onConnection 66000 "P" (sweep 65000 leftAtNine))))
     = Some 100.
Proof.
  vm_compute. repeat split; auto 10.
Qed.

(** The end (2,0,0) is a point of the segment, so the distance is at
    most the distance to it; and (1.5,2,0) projects to the middle of
    the segment. *)
Lemma pointLineDistance_is_segment_distance_witness :
  (pointLineDistance (T := R) (vecZ 0 0 0) (vecZ 1 0 0) (vecZ 2 0 0)
   <= euclidean (vecZ 0 0 0) (linePoint (vecZ 1 0 0) (vecZ 2 0 0) 1))%R
  /\ pointLineDistance (T := float)
       (mkVec3 1.5%float 2%float 0%float) (vecZ 1 0 0) (vecZ 2 0 0)
     = distance (mkVec3 1.5%float 2%float 0%float)
                (pointAt (vecZ 1 0 0) (vecZ 2 0 0) 0.5%float).
Proof.
  split.
  - apply (proj1 pointLineDistance_is_segment_distance).
    exists 1%R. split; [lra|reflexivity].
  - destruct pointLineDistance_is_segment_distance
      as (_ & _ & _ & _ & B & _).
    destruct (B (mkVec3 1.5%float 2%float 0%float)
                (vecZ 1 0 0) (vecZ 2 0 0)) as (_ & C).
    destruct (C eq_refl) as (_ & M & _).
    exact (M eq_refl eq_refl).
Defined.


(** With A and B both at the origin, a shot of A at the origin damages
    B and nobody else. *)
Lemma hit_scan_selects_nearest_witness :
  option_map (@health float)
    (mget "B" (players (laserFire 1000 "A" shotAtOrigin twoPlayers)))
  = Some 95
  /\ option_map (@health float)
       (mget "A" (players (laserFire 1000 "A" shotAtOrigin twoPlayers)))
     = Some 100.
Proof.
  unfold shotAtOrigin.
  assert (R : reachable twoPlayers) by (eexists; reflexivity).
  destruct (proj1 hit_scan_selects_nearest float _ _ 1000 "A"%string shotData
              (vecZ 0 0 0) (vecZ 0 0 0) twoPlayers R eq_refl eq_refl eq_refl)
    as [(Far & _)|(v & target & (G & Nv & Hv) & _ & _ & Ev & Eo & _)].
  - exfalso.
    apply (Far "B"%string (newPlayer 0 "B")); [|reflexivity].
    split; [reflexivity|]. split; [discriminate|reflexivity].
  - assert (E : v = "B"%string /\ health target = 100).
    { change (players twoPlayers)
        with [("A"%string, newPlayer (T := float) 0 "A");
              ("B"%string, newPlayer (T := float) 0 "B")] in G.
      simpl in G.
      destruct (String.eqb_spec v "A"); [contradiction|].
      destruct (String.eqb_spec v "B"); [|discriminate].
      inversion G. split; [assumption|reflexivity]. }
    destruct E as (-> & Ht). split.
    + rewrite Ev, Ht. reflexivity.
    + rewrite (Eo "A"%string); [reflexivity|discriminate].
Defined.

(* ================================================================= *)
(** ** More facts about maps *)

Section EntryFacts.
Context {V : Type}.
Implicit Types (m : JsMap V) (k : Id) (v : V).

Lemma Forall_mget (P : Id * V -> Prop) k v m :
  Forall P m -> mget k m = Some v -> P (k, v).
Proof.
  intros A G. apply mget_In in G. rewrite Forall_forall in A. exact (A _ G).
Qed.

Lemma Forall_mset (P : Id * V -> Prop) k v m :
  P (k, v) -> Forall P m -> Forall P (mset k v m).
Proof.
  intros Pk. induction m as [|[k0 v0] m IH]; simpl; intros A.
  - constructor; [exact Pk | constructor].
  - inversion A; subst. destruct (String.eqb k k0); constructor; auto.
Qed.

Lemma Forall_mdelete (P : Id * V -> Prop) k m :
  Forall P m -> Forall P (mdelete k m).
Proof.
  induction m as [|[k0 v0] m IH]; simpl; intros A; [constructor|].
  inversion A; subst. destruct (String.eqb k k0); [auto | constructor; auto].
Qed.

Lemma Forall_mupdate (P : Id * V -> Prop) k (f : V -> V) m :
  (forall v, P (k, v) -> P (k, f v)) -> Forall P m ->
  Forall P (mupdate k f m).
Proof.
  intros Pf. induction m as [|[k0 v0] m IH]; simpl; intros A; [constructor|].
  inversion A; subst.
  destruct (String.eqb_spec k k0); subst; constructor; auto.
Qed.

Lemma Forall_filter_entries (P : Id * V -> Prop) (keep : Id * V -> bool) m :
  Forall P m -> Forall P (filter keep m).
Proof.
  rewrite !Forall_forall. intros A e I. apply filter_In in I. apply A. tauto.
Qed.

Lemma mget_filter (keep : Id * V -> bool) k m :
  NoDup (mkeys m) ->
  mget k (filter keep m) =
  match mget k m with
  | Some v => if keep (k, v) then Some v else None
  | None => None
  end.
Proof.
  induction m as [|[k0 v0] m IH]; simpl; intros ND; [reflexivity|].
  inversion ND as [|? ? NI ND']; subst.
  destruct (String.eqb_spec k k0); subst.
  - destruct (keep (k0, v0)) eqn:K; simpl.
    + rewrite String.eqb_refl. reflexivity.
    + rewrite (IH ND').
      destruct (mget k0 m) eqn:G; [|reflexivity].
      exfalso. apply NI. apply mhas_In. unfold mhas. rewrite G. reflexivity.
  - destruct (keep (k0, v0)); simpl; [|exact (IH ND')].
    destruct (String.eqb_spec k k0); [contradiction|exact (IH ND')].
Qed.

Lemma mget_map_values {W : Type} (f : V -> W) k m :
  mget k (map (fun e => (fst e, f (snd e))) m) = option_map f (mget k m).
Proof.
  induction m as [|[k0 v0] m IH]; simpl; [reflexivity|].
  destruct (String.eqb k k0); [reflexivity|exact IH].
Qed.

Lemma mkeys_map_values {W : Type} (f : V -> W) m :
  mkeys (map (fun e => (fst e, f (snd e))) m) = mkeys m.
Proof.
  unfold mkeys. rewrite map_map. reflexivity.
Qed.

Lemma mget_None_mhas k m : mget k m = None <-> mhas k m = false.
Proof. unfold mhas. destruct (mget k m); split; congruence. Qed.

(** A field write that leaves [g] alone leaves [g] of every entry alone. *)
Lemma mupdate_preserves {A : Type} (g : V -> A) k k' (f : V -> V) m :
  (forall v, g (f v) = g v) ->
  option_map g (mget k' (mupdate k f m)) = option_map g (mget k' m).
Proof.
  intros E. rewrite mget_mupdate.
  destruct (String.eqb_spec k' k); [subst k'|reflexivity].
  destruct (mget k m); simpl; [rewrite E|]; reflexivity.
Qed.

End EntryFacts.

(* ================================================================= *)
(** ** Records, stamps and the laser buffer in reachable states *)

Section MoreInvariants.
Context {T : Type} `{Number T}.
Implicit Types (st : Server T) (id : Id) (now : Z).

Lemma applyUpdate_fixed (data : UpdateData T) (p : Player T) :
  playerId (applyUpdate data p) = playerId p
  /\ timestamp (applyUpdate data p) = timestamp p
  /\ recentlyHit (applyUpdate data p) = recentlyHit p.
Proof.
  unfold applyUpdate, applyOpt.
  destruct (isRespawning data), (upd_position data), (upd_rotation data),
    (upd_velocity data), (truthy (upd_nickname data)), (upd_colorIndex data);
    simpl; try (repeat split; reflexivity);
    match goal with
    | |- context [negb ?b] => destruct b; repeat split; reflexivity
    end.
Qed.

(** *** Records *)

Lemma applyDamage_recordsOk now id v st :
  Forall recordOk (players st) ->
  Forall recordOk (players (applyDamage now id v st)).
Proof.
  intros A. unfold applyDamage.
  destruct (mget v (players st)) as [target|] eqn:G; [|exact A].
  cbv zeta. simpl.
  destruct (Forall_mget _ _ _ _ A G) as (_ & _ & D5). simpl in D5.
  assert (Dn : (5 | Z.max 0 (health target - 5))).
  { destruct (Z.max_spec 0 (health target - 5)) as [[_ ->]|[_ ->]].
    - apply Z.divide_sub_r; [exact D5 | apply Z.divide_refl].
    - apply Z.divide_0_r. }
  assert (A1 : Forall recordOk
                 (mupdate v (set_health (Z.max 0 (health target - 5)))
                          (players st))).
  { apply Forall_mupdate; [|exact A].
    intros p (I & K & _). repeat split; assumption. }
  apply Forall_mupdate; [intros p Hp; exact Hp|].
  destruct ((0 <? health target) && (Z.max 0 (health target - 5) =? 0));
    [|exact A1].
  apply Forall_mupdate.
  { intros p (I & _ & D). repeat split; [exact I | simpl; lia | exact D]. }
  destruct (mget id _) as [shooter|] eqn:Gs; [|exact A1].
  destruct (Forall_mget _ _ _ _ A1 Gs) as (_ & Ks & _). simpl in Ks.
  apply Forall_mupdate; [|exact A1].
  intros p (I & _ & D). repeat split; [exact I | simpl; lia | exact D].
Qed.

Lemma onDisconnect_recordsOk id st :
  recordsOk st -> recordsOk (onDisconnect id st).
Proof.
  intros [Ap Ad].
  destruct (onDisconnect_registries id st) as (Ep & Ed & _).
  split.
  - rewrite Ep. apply Forall_mdelete. exact Ap.
  - rewrite Ed. destruct (mget id (players st)) as [p|] eqn:G; [|exact Ad].
    apply Forall_mset; [exact (Forall_mget _ _ _ _ Ap G) | exact Ad].
Qed.

Lemma step_recordsOk st (ev : Z * Event) :
  recordsOk st -> recordsOk (step st ev).
Proof.
  intros Inv. destruct ev as [now [id|id data|id|id data| | | |]];
    unfold step; simpl.
  - destruct Inv as [Ap Ad].
    destruct (onConnection_registries now id st) as (Ep & Ed & _).
    split.
    + rewrite Ep. apply Forall_mset; [|exact Ap].
      destruct (mget id (disconnectedPlayers st)) as [prev|] eqn:G.
      * exact (Forall_mget _ _ _ _ Ad G).
      * repeat split; simpl; [lia | exists 20; reflexivity].
    + rewrite Ed. destruct (mget id (disconnectedPlayers st));
        [apply Forall_mdelete|]; exact Ad.
  - destruct data as [d|]; [|exact Inv].
    destruct Inv as [Ap Ad].
    destruct (laserFire_registries now id d st) as (Ep & Ed & _).
    split; [|rewrite Ed; exact Ad].
    rewrite Ep. unfold hitResult.
    destruct (startPosition d); [|exact Ap].
    destruct (endPosition d); [|exact Ap].
    destruct (likelyHit d); [|exact Ap].
    destruct (findClosest _ _ _ _); [|exact Ap].
    apply applyDamage_recordsOk. exact Ap.
  - apply onDisconnect_recordsOk. exact Inv.
  - destruct Inv as [Ap Ad].
    destruct (playerUpdate_registries now id data st) as (Ep & Ed & _).
    split; [|rewrite Ed; exact Ad].
    rewrite Ep. apply Forall_mupdate.
    + intros p (I & K & D). unfold recordOk. simpl in *.
      destruct (applyUpdate_fixed data p) as (Ei & _).
      rewrite Ei, applyUpdate_kills, applyUpdate_health.
      destruct (isRespawning data); repeat split; try assumption;
        [lia | exists 20; reflexivity].
    + apply Forall_mupdate; [intros p Hp; exact Hp | exact Ap].
  - unfold sweep. cbv zeta. apply fold_invariant.
    + intros s e Hs. unfold sweepInactive.
      destruct (now - snd e >? PLAYER_TIMEOUT);
        [apply onDisconnect_recordsOk|]; exact Hs.
    + destruct Inv as [Ap Ad]. split; simpl; [exact Ap|].
      apply Forall_filter_entries. exact Ad.
  - unfold flushLaserBuffer. cbv zeta. destruct (0 <? _); exact Inv.
  - unfold broadcastState. cbv zeta. destruct (0 <? _); exact Inv.
  - unfold runTimers. apply fold_invariant; [|exact Inv].
    intros s e [Ap Ad].
    destruct (timerCallback_registries (snd e) s) as (Ep & Ed & _).
    split; [|rewrite Ed; exact Ad].
    rewrite Ep. apply Forall_mupdate; [intros p Hp; exact Hp | exact Ap].
Qed.

Lemma reachable_recordsOk st : reachable st -> recordsOk st.
Proof.
  intros [trace ->]. apply run_invariant.
  - intros s ev. apply step_recordsOk.
  - split; constructor.
Qed.

End MoreInvariants.

(* ================================================================= *)
(** ** Facts about plain objects *)

Section ObjectFacts.
Context {V : Type}.
Implicit Types (m obj : JsMap V) (k : Id) (v : V).

Lemma insertByIndex_Permutation (n : N) (e : Id * V) l :
  Permutation (map snd (insertByIndex n e l)) (e :: map snd l).
Proof.
  induction l as [|[n' e'] l IH]; simpl; [apply Permutation_refl|].
  destruct (n <? n')%N; simpl; [apply Permutation_refl|].
  apply perm_trans with (e' :: e :: map snd l);
    [apply perm_skip; exact IH | apply perm_swap].
Qed.

(** [propertyOrder] rearranges the own properties and loses none. *)
Lemma propertyOrder_Permutation obj : Permutation (propertyOrder obj) obj.
Proof.
  unfold propertyOrder.
  induction obj as [|e obj IH]; simpl; [apply Permutation_refl|].
  unfold namedProperty at 1.
  destruct (arrayIndex (fst e)) as [n|].
  - apply perm_trans
      with ((e :: map snd (indexedProperties obj)) ++ filter namedProperty obj).
    + apply Permutation_app_tail. apply insertByIndex_Permutation.
    + simpl. apply perm_skip. exact IH.
  - apply Permutation_sym. apply Permutation_cons_app.
    apply Permutation_sym. exact IH.
Qed.

(** Without a property named by an array index, the order is the order
    of creation. *)
Lemma propertyOrder_named obj :
  (forall k, mhas k obj = true -> arrayIndex k = None) ->
  propertyOrder obj = obj.
Proof.
  unfold propertyOrder.
  induction obj as [|[k0 v0] obj IH]; simpl; intros A; [reflexivity|].
  assert (A0 : arrayIndex k0 = None).
  { apply A. unfold mhas. simpl. rewrite String.eqb_refl. reflexivity. }
  assert (A' : forall k, mhas k obj = true -> arrayIndex k = None).
  { intros k M. apply A. unfold mhas in *. simpl.
    destruct (String.eqb k k0); [reflexivity | exact M]. }
  specialize (IH A'). unfold namedProperty at 1. simpl. rewrite A0.
  destruct (map snd (indexedProperties obj)) as [|e l] eqn:E.
  - simpl in *. f_equal. exact IH.
  - exfalso.
    assert (L : (List.length (e :: l ++ filter namedProperty obj)
                 <= List.length obj)%nat).
    { change (e :: l ++ filter namedProperty obj)
        with ((e :: l) ++ filter namedProperty obj).
      rewrite IH. lia. }
    assert (F : (List.length obj
                 <= List.length (filter namedProperty obj))%nat).
    { clear -A'. induction obj as [|[k1 v1] obj IH]; simpl; [lia|].
      assert (A1 : arrayIndex k1 = None).
      { apply A'. unfold mhas. simpl. rewrite String.eqb_refl. reflexivity. }
      unfold namedProperty at 1. simpl. rewrite A1. simpl.
      apply le_n_S. apply IH. intros k M. apply A'. unfold mhas in *. simpl.
      destruct (String.eqb k k1); [reflexivity | exact M]. }
    simpl in L. rewrite length_app in L. lia.
Qed.

Lemma NoDup_keys_Permutation m m' :
  Permutation m m' -> NoDup (mkeys m) -> NoDup (mkeys m').
Proof.
  intros P. apply Permutation_NoDup. unfold mkeys.
  apply Permutation_map. exact P.
Qed.

Lemma mget_Permutation k m m' :
  NoDup (mkeys m) -> Permutation m m' -> mget k m' = mget k m.
Proof.
  intros ND P. pose proof (NoDup_keys_Permutation _ _ P ND) as ND'.
  destruct (mget k m) as [v|] eqn:G.
  - apply In_mget; [exact ND'|].
    apply (Permutation_in _ P). apply mget_In. exact G.
  - destruct (mget k m') as [v|] eqn:G'; [|reflexivity].
    apply mget_In in G'. apply (Permutation_in _ (Permutation_sym P)) in G'.
    rewrite (In_mget _ _ _ ND G') in G. discriminate.
Qed.

Lemma filter_Permutation (f : V -> bool) (l l' : list V) :
  Permutation l l' -> Permutation (filter f l) (filter f l').
Proof.
  induction 1 as [|a l l' P IH|a b l|l l' l'' P IH P' IH']; simpl.
  - apply Permutation_refl.
  - destruct (f a); [apply perm_skip|]; exact IH.
  - destruct (f a), (f b);
      try apply perm_swap; apply Permutation_refl.
  - apply perm_trans with (filter f l'); assumption.
Qed.

Lemma concat_Permutation (l l' : list (list V)) :
  Permutation l l' -> Permutation (List.concat l) (List.concat l').
Proof.
  induction 1 as [|a l l' P IH|a b l|l l' l'' P IH P' IH']; simpl.
  - apply Permutation_refl.
  - apply Permutation_app_head. exact IH.
  - rewrite !app_assoc. apply Permutation_app_tail. apply Permutation_app_comm.
  - apply perm_trans with (List.concat l'); assumption.
Qed.

(** [obj[k] = v] for each entry, on an object that has no property
    [__proto__]: the entries other than [__proto__] are stored. *)
Lemma mget_assignProperty k k' v obj :
  mget k (assignProperty k' v obj) =
  if String.eqb k' "__proto__" then mget k obj
  else if String.eqb k k' then Some v else mget k obj.
Proof.
  unfold assignProperty. destruct (String.eqb k' "__proto__"); [reflexivity|].
  apply mget_mset.
Qed.

Lemma mset_fresh k v m : mhas k m = false -> mset k v m = m ++ [(k, v)].
Proof.
  unfold mhas. induction m as [|[k0 v0] m IH]; simpl; [reflexivity|].
  destruct (String.eqb k k0); [discriminate|].
  intros M. rewrite (IH M). reflexivity.
Qed.

End ObjectFacts.

(** Filling an object from the entries of a [Map]: every entry but the
    one under [__proto__] becomes an own property, in the order of the
    [Map]. *)
Lemma fold_assignProperty {V W : Type} (f : V -> W) (m : JsMap V) :
  forall acc : JsMap W,
    NoDup (mkeys m) ->
    (forall k, In k (mkeys m) -> mhas k acc = false) ->
    fold_left (fun o e => assignProperty (fst e) (f (snd e)) o) m acc
    = acc ++ map (fun e => (fst e, f (snd e)))
                 (filter (fun e => negb (String.eqb (fst e) "__proto__")) m).
Proof.
  induction m as [|[k0 v0] m IH]; simpl; intros acc ND Fr.
  - rewrite app_nil_r. reflexivity.
  - inversion ND as [|? ? NI ND']; subst.
    unfold assignProperty at 2.
    destruct (String.eqb k0 "__proto__") eqn:E; simpl.
    + apply IH; [exact ND'|]. intros k I. apply Fr. right. exact I.
    + rewrite IH; [|exact ND'|].
      * rewrite (mset_fresh k0 (f v0) acc) by (apply Fr; left; reflexivity).
        rewrite <- app_assoc. reflexivity.
      * intros k I. rewrite mhas_mset.
        destruct (String.eqb_spec k k0) as [->|_]; [contradiction|].
        apply Fr. right. exact I.
Qed.


(** Keys that are array indices come first, by numeric value, whatever
    the order of creation; ["01"] and ["4294967295"] are not array
    indices. *)
Example propertyOrder_example :
  mkeys (propertyOrder
           [("b", 1); ("10", 2); ("2", 3); ("01", 4); ("a", 5);
            ("0", 6); ("4294967295", 7); ("4294967294", 8)]%string)
  = ["0"; "2"; "10"; "4294967294"; "b"; "01"; "a"; "4294967295"]%string.
Proof. vm_compute. reflexivity. Qed.

Section BufferInvariant.
Context {T : Type} `{Number T}.
Implicit Types (st : Server T) (id : Id) (now : Z).

Lemma reachable_disjoint st : reachable st -> registriesDisjoint st.
Proof.
  intros [trace ->]. apply run_invariant.
  - intros s ev. apply step_disjoint.
  - intros k. reflexivity.
Qed.

Lemma reachable_sameIds st : reachable st -> sameIds st.
Proof.
  intros [trace ->]. apply run_invariant.
  - intros s ev. apply step_sameIds.
  - intros k. reflexivity.
Qed.

(** *** The laser buffer *)

Lemma laserBuffer_frame st (ev : Z * Event) :
  (forall id data, snd ev <> LaserFire id data) ->
  snd ev <> LaserFlush ->
  laserBuffer (step st ev) = laserBuffer st.
Proof.
  intros NF NL. destruct ev as [now [id|id data|id|id data| | | |]];
    unfold step; simpl in *.
  - destruct (onConnection_registries now id st) as (_ & _ & _ & Eb & _).
    exact Eb.
  - exfalso. exact (NF id data eq_refl).
  - destruct (onDisconnect_registries id st) as (_ & _ & _ & Eb & _).
    exact Eb.
  - destruct (playerUpdate_registries now id data st) as (_ & _ & _ & Eb & _).
    exact Eb.
  - unfold sweep. cbv zeta.
    apply (fold_invariant (fun s => laserBuffer s = laserBuffer st));
      [|reflexivity].
    intros s e Hs. unfold sweepInactive.
    destruct (now - snd e >? PLAYER_TIMEOUT); [|exact Hs].
    destruct (onDisconnect_registries (fst e) s) as (_ & _ & _ & Eb & _).
    rewrite Eb. exact Hs.
  - exfalso. apply NL. reflexivity.
  - unfold broadcastState. cbv zeta. destruct (0 <? _); reflexivity.
  - unfold runTimers.
    apply (fold_invariant (fun s => laserBuffer s = laserBuffer st));
      [|reflexivity].
    intros s e Hs.
    destruct (timerCallback_registries (snd e) s) as (_ & _ & _ & Eb & _).
    rewrite Eb. exact Hs.
Qed.

Lemma bufferLaser_ok id (d : LaserData T) st :
  bufferOk st -> bufferOk (bufferLaser id d st).
Proof.
  intros [ND A]. unfold bufferLaser.
  destruct (_ && _); [exact (conj ND A)|].
  unfold bufferOk. simpl. split.
  - apply NoDup_mset. exact ND.
  - apply Forall_mset; [|exact A].
    destruct (mget id (laserBuffer st)) as [q|] eqn:G.
    + destruct (Forall_mget _ _ _ _ A G) as (L & Tg). simpl in L, Tg.
      unfold queueOk. simpl.
      destruct (Z.of_nat (List.length q) <? 2) eqn:Room.
      * apply Z.ltb_lt in Room. split.
        -- rewrite length_app. simpl. lia.
        -- apply Forall_app. split; [exact Tg|].
           constructor; [reflexivity|constructor].
      * split; assumption.
    + unfold queueOk. simpl. split; [lia|].
      constructor; [reflexivity|constructor].
Qed.

Lemma bufferLaser_buffer id (d : LaserData T) st st1 :
  laserBuffer st1 = laserBuffer st ->
  laserBuffer (bufferLaser id d st1) = laserBuffer (bufferLaser id d st).
Proof.
  intros E. unfold bufferLaser. rewrite E.
  destruct (_ && _); simpl; congruence.
Qed.

Lemma laserFire_buffer now id (d : LaserData T) st :
  laserBuffer (laserFire now id (Some d) st) =
  match startPosition d, endPosition d with
  | Some _, Some _ => laserBuffer (bufferLaser id d st)
  | _, _ => laserBuffer st
  end.
Proof.
  unfold laserFire.
  destruct (startPosition d) as [a|]; [|reflexivity].
  destruct (endPosition d) as [b|]; [|reflexivity].
  apply bufferLaser_buffer.
  destruct (likelyHit d); [|reflexivity].
  destruct (findClosest id a b (players st)) as [v|]; [|reflexivity].
  destruct (applyDamage_registries now id v st) as (_ & _ & Eb & _).
  exact Eb.
Qed.

Lemma step_bufferOk st (ev : Z * Event) :
  bufferOk st -> bufferOk (step st ev).
Proof.
  intros Inv.
  destruct ev as [now e].
  destruct e as [id|id data|id|id data| | | |];
    try (unfold bufferOk; rewrite laserBuffer_frame;
         [exact Inv | intros ? ?; discriminate | discriminate]).
  - unfold step. simpl. destruct data as [d|]; [|exact Inv].
    unfold bufferOk. rewrite laserFire_buffer.
    destruct (startPosition d); [|exact Inv].
    destruct (endPosition d); [|exact Inv].
    apply bufferLaser_ok. exact Inv.
  - unfold step, flushLaserBuffer, bufferOk. simpl.
    split; constructor.
Qed.

Lemma reachable_bufferOk st : reachable st -> bufferOk st.
Proof.
  intros [trace ->]. apply run_invariant.
  - intros s ev. apply step_bufferOk.
  - split; constructor.
Qed.

(** The events a shooter contributes to the flattened buffer are those
    of its own queue. *)
Lemma firedBy_concat id (b : JsMap (list (LaserEvent T))) :
  NoDup (mkeys b) -> Forall queueOk b ->
  firedBy id (List.concat (map snd b)) =
  match mget id b with Some q => q | None => [] end.
Proof.
  unfold firedBy.
  induction b as [|[k q] b IH]; simpl; intros ND A; [reflexivity|].
  inversion ND as [|? ? NI ND']; subst. inversion A as [|? ? Q A']; subst.
  rewrite filter_app, (IH ND' A'). destruct Q as (_ & Tg). simpl in Tg.
  destruct (String.eqb_spec id k) as [E|N].
  - subst k.
    assert (G : mget id b = None).
    { apply mget_None_mhas. destruct (mhas id b) eqn:M; [|reflexivity].
      exfalso. apply NI. apply mhas_In. exact M. }
    rewrite G, app_nil_r.
    clear -Tg. induction q as [|e q IHq]; simpl; [reflexivity|].
    inversion Tg; subst. rewrite String.eqb_refl. f_equal. auto.
  - replace (filter (fun e => String.eqb (shooterId e) id) q) with
      (@nil (LaserEvent T)); [reflexivity|].
    clear -Tg N. induction q as [|e q IHq]; simpl; [reflexivity|].
    inversion Tg; subst.
    destruct (String.eqb_spec (shooterId e) id); [congruence|auto].
Qed.

(** The same holds in the order [for ... in] visits the shooters. *)
Lemma firedBy_propertyOrder id (b : JsMap (list (LaserEvent T))) :
  NoDup (mkeys b) -> Forall queueOk b ->
  firedBy id (List.concat (map snd (propertyOrder b))) =
  match mget id b with Some q => q | None => [] end.
Proof.
  intros ND A.
  pose proof (Permutation_sym (propertyOrder_Permutation b)) as P.
  rewrite firedBy_concat.
  - rewrite (mget_Permutation id _ _ ND P). reflexivity.
  - exact (NoDup_keys_Permutation _ _ P ND).
  - exact (Permutation_Forall P A).
Qed.

End BufferInvariant.

(* ================================================================= *)
(** ** The sweeper *)

Section Sweeper.
Context {T : Type} `{Number T}.
Implicit Types (st : Server T) (id : Id) (now : Z).

Lemma staleIn_mget now id (l : JsMap Z) :
  NoDup (mkeys l) ->
  staleIn now id l =
  match mget id l with
  | Some t => now - t >? PLAYER_TIMEOUT
  | None => false
  end.
Proof.
  unfold staleIn.
  induction l as [|[k t] l IH]; simpl; intros ND; [reflexivity|].
  inversion ND as [|? ? NI ND']; subst. unfold isStale at 1. simpl.
  rewrite (IH ND'), (String.eqb_sym k id).
  destruct (String.eqb_spec id k) as [E|N]; simpl; [subst k|reflexivity].
  destruct (mget id l) eqn:G.
  - exfalso. apply NI. apply mhas_In. unfold mhas. rewrite G. reflexivity.
  - apply orb_false_r.
Qed.

(** The timeout loop over the entries [l] of [playerLastSeen]. *)
Lemma sweepInactive_fold now (l : JsMap Z) st :
  let st' := fold_left (sweepInactive now) l st in
  (forall id,
      mget id (players st') =
        (if staleIn now id l then None else mget id (players st))
      /\ mget id (disconnectedPlayers st') =
           (if staleIn now id l
            then match mget id (players st) with
                 | Some p => Some p
                 | None => mget id (disconnectedPlayers st)
                 end
            else mget id (disconnectedPlayers st))
      /\ mget id (playerLastSeen st') =
           (if staleIn now id l then None else mget id (playerLastSeen st)))
  /\ emitted st' =
       emitted st
       ++ leftMessages (filter (fun e => now - snd e >? PLAYER_TIMEOUT) l)
  /\ laserBuffer st' = laserBuffer st
  /\ timers st' = timers st.
Proof.
  revert st. induction l as [|e l IH]; intros st; cbv zeta.
  - simpl. split; [intros id; repeat split|].
    rewrite app_nil_r. repeat split.
  - simpl fold_left. specialize (IH (sweepInactive now st e)). cbv zeta in IH.
    destruct IH as (IHr & IHe & IHb & IHt).
    unfold staleIn. simpl existsb. fold (staleIn now).
    unfold isStale, sweepInactive in *. simpl filter.
    destruct (now - snd e >? PLAYER_TIMEOUT) eqn:Old.
    + destruct (onDisconnect_registries (fst e) st)
        as (Ep & Ed & El & Eb & Et & Ee).
      split; [|rewrite IHe, IHb, IHt, Ee, Eb, Et, <- app_assoc;
               repeat split].
      intros id. destruct (IHr id) as (Ip & Id' & Il).
      rewrite Ip, Id', Il, Ep, Ed, El, !mget_mdelete, andb_true_r.
      rewrite (String.eqb_sym (fst e) id).
      destruct (String.eqb_spec id (fst e)) as [E|N]; simpl.
      * subst id.
        assert (D : mget (fst e)
                      match mget (fst e) (players st) with
                      | Some playerData =>
                        mset (fst e) playerData (disconnectedPlayers st)
                      | None => disconnectedPlayers st
                      end
                    = match mget (fst e) (players st) with
                      | Some p => Some p
                      | None => mget (fst e) (disconnectedPlayers st)
                      end).
        { destruct (mget (fst e) (players st)); [|reflexivity].
          rewrite mget_mset, String.eqb_refl. reflexivity. }
        rewrite D. destruct (staleIn now (fst e) l); repeat split.
      * assert (D : mget id
                      match mget (fst e) (players st) with
                      | Some playerData =>
                        mset (fst e) playerData (disconnectedPlayers st)
                      | None => disconnectedPlayers st
                      end
                    = mget id (disconnectedPlayers st)).
        { destruct (mget (fst e) (players st)); [|reflexivity].
          rewrite mget_mset.
          destruct (String.eqb_spec id (fst e)); [contradiction|reflexivity]. }
        rewrite D. repeat split.
    + split; [|rewrite IHe, IHb, IHt; repeat split].
      intros id. rewrite andb_false_r. simpl. exact (IHr id).
Qed.

(** What [sweep] does to one id, in a reachable state. *)
Lemma sweep_active now st id (p : Player T) (lastSeen : Z) :
  reachable st -> mget id (players st) = Some p ->
  mget id (playerLastSeen st) = Some lastSeen ->
  let st' := sweep now st in
  (now - lastSeen > PLAYER_TIMEOUT ->
     mget id (players st') = None
     /\ mget id (disconnectedPlayers st') = Some p
     /\ mget id (playerLastSeen st') = None
     /\ In (EmitPlayerLeft id) (emitted st'))
  /\ (now - lastSeen <= PLAYER_TIMEOUT ->
        mget id (players st') = Some p
        /\ mget id (disconnectedPlayers st') = None
        /\ mget id (playerLastSeen st') = Some lastSeen).
Proof.
  intros R G St st'.
  destruct (reachable_uniqueKeys st R) as (_ & _ & NDl).
  pose proof (reachable_disjoint st R id) as Dj.
  unfold mhas in Dj. rewrite G in Dj. simpl in Dj.
  assert (Dn : mget id (purgeExpired now (disconnectedPlayers st)) = None).
  { apply mget_None_mhas.
    destruct (mhas id (purgeExpired now (disconnectedPlayers st))) eqn:M;
      [|reflexivity].
    apply mhas_filter in M. unfold mhas in M. rewrite M in Dj. discriminate. }
  subst st'.
  change (sweep now st)
    with (fold_left (sweepInactive now) (playerLastSeen st)
            (with_disconnectedPlayers
               (purgeExpired now (disconnectedPlayers st)) st)).
  destruct (sweepInactive_fold now (playerLastSeen st)
              (with_disconnectedPlayers
                 (purgeExpired now (disconnectedPlayers st)) st))
    as (Reg & Em & _).
  destruct (Reg id) as (Ep & Ed & El).
  simpl in Ep, Ed, El, Em.
  rewrite (staleIn_mget now id _ NDl), St in Ep, Ed, El.
  split; intros Age.
  - assert (Old : (now - lastSeen >? PLAYER_TIMEOUT) = true)
      by (apply Z.gtb_lt; lia).
    rewrite Old in Ep, Ed, El. rewrite G in Ed.
    split; [exact Ep|]. split; [exact Ed|]. split; [exact El|].
    rewrite Em. apply in_or_app. right. unfold leftMessages.
    apply in_map_iff. exists (id, lastSeen). split; [reflexivity|].
    apply filter_In. split; [apply mget_In; exact St | exact Old].
  - assert (Young : (now - lastSeen >? PLAYER_TIMEOUT) = false).
    { destruct (now - lastSeen >? PLAYER_TIMEOUT) eqn:E; [|reflexivity].
      apply Z.gtb_lt in E. lia. }
    rewrite Young in Ep, Ed, El. rewrite G in Ep. rewrite Dn in Ed.
    repeat split; assumption.
Qed.

Lemma sweep_disconnected now st id (p : Player T) :
  reachable st -> mget id (disconnectedPlayers st) = Some p ->
  let st' := sweep now st in
  mget id (players st') = None
  /\ mget id (disconnectedPlayers st') =
       (if now - timestamp p >? DISCONNECTED_PLAYER_TIMEOUT
        then None else Some p).
Proof.
  intros R G st'.
  destruct (reachable_uniqueKeys st R) as (_ & NDd & NDl).
  pose proof (reachable_disjoint st R id) as Dj.
  unfold mhas in Dj. rewrite G in Dj. rewrite andb_true_r in Dj.
  assert (Gp : mget id (players st) = None).
  { destruct (mget id (players st)); [discriminate|reflexivity]. }
  assert (St : mget id (playerLastSeen st) = None).
  { apply mget_None_mhas. rewrite <- (reachable_sameIds st R id).
    apply mget_None_mhas. exact Gp. }
  subst st'.
  change (sweep now st)
    with (fold_left (sweepInactive now) (playerLastSeen st)
            (with_disconnectedPlayers
               (purgeExpired now (disconnectedPlayers st)) st)).
  destruct (sweepInactive_fold now (playerLastSeen st)
              (with_disconnectedPlayers
                 (purgeExpired now (disconnectedPlayers st)) st))
    as (Reg & _).
  destruct (Reg id) as (Ep & Ed & _).
  simpl in Ep, Ed.
  rewrite (staleIn_mget now id _ NDl), St in Ep, Ed.
  rewrite Gp in Ep. split; [exact Ep|].
  rewrite Ed. unfold purgeExpired. rewrite (mget_filter _ _ _ NDd), G. simpl.
  destruct (now - timestamp p >? DISCONNECTED_PLAYER_TIMEOUT); reflexivity.
Qed.

End Sweeper.

(* ================================================================= *)
(** ** Further properties of the server *)

Section ServerProperties.
Context {T : Type} `{Number T}.
Implicit Types (st : Server T) (id : Id) (now : Z).

Lemma reachable_health st : reachable st -> healthInvariant st.
Proof.
  intros [trace ->]. apply run_invariant.
  - intros s ev. apply step_health.
  - split; constructor.
Qed.

(** X1.  In every reachable state a record stored under [id], in
    [players] or in [disconnectedPlayers], has [id] as its own id
    property. *)
Theorem record_ids_match_keys :
  forall st id (p : Player T),
    reachable st ->
    mget id (players st) = Some p \/ mget id (disconnectedPlayers st) = Some p ->
    playerId p = id.
Proof.
  intros st id p R G. destruct (reachable_recordsOk st R) as [Ap Ad].
  destruct G as [G|G];
    [destruct (Forall_mget _ _ _ _ Ap G) as (I & _)
    |destruct (Forall_mget _ _ _ _ Ad G) as (I & _)]; exact I.
Qed.

(** X2.  In every reachable state the kills of every stored record are
    not negative, and its health is one of 0, 5, 10, ..., 100. *)
Theorem kills_nonnegative_health_in_steps :
  forall st id (p : Player T),
    reachable st ->
    mget id (players st) = Some p \/ mget id (disconnectedPlayers st) = Some p ->
    0 <= kills p /\ exists n, 0 <= n <= 20 /\ health p = 5 * n.
Proof.
  intros st id p R G. destruct (reachable_recordsOk st R) as [Ap Ad].
  destruct (reachable_health st R) as [Bp Bd].
  assert (Ok : recordOk (id, p) /\ healthBounded p).
  { destruct G as [G|G].
    - split; [exact (Forall_mget _ _ _ _ Ap G) | exact (mall_mget Bp G)].
    - split; [exact (Forall_mget _ _ _ _ Ad G) | exact (mall_mget Bd G)]. }
  destruct Ok as ((_ & K & (n & Hn)) & B). simpl in K, Hn.
  unfold healthBounded in B. split; [exact K|].
  exists n. split; lia.
Qed.

(** X3.  In every reachable state the queue of a shooter in the laser
    buffer holds at most two events, each tagged with that shooter's
    id. *)
Theorem laser_queue_bounded :
  forall st id (q : list (LaserEvent T)),
    reachable st ->
    mget id (laserBuffer st) = Some q ->
    (List.length q <= 2)%nat /\ Forall (fun e => shooterId e = id) q.
Proof.
  intros st id q R G. destruct (reachable_bufferOk st R) as [_ A].
  exact (Forall_mget _ _ _ _ A G).
Qed.

(** X4.  The laser broadcast, in a reachable state.  The queues of the
    buffer are concatenated in the order [for ... in] visits the
    shooters: ids that are array indices first, by ascending numeric
    value, then the other ids in the order of their first buffered shot
    (so with no array-index id, in the order of the buffer).  If any
    event was queued, exactly one laserFires message with all of them
    is sent, otherwise nothing.  The events of one shooter in the
    message are that shooter's queue, in its order, and at most two.
    The buffer is left empty; registries and timers are untouched. *)
Theorem flush_sends_two_per_shooter_at_most :
  forall st,
    reachable st ->
    let events := List.concat (map snd (propertyOrder (laserBuffer st))) in
    let st' := flushLaserBuffer st in
    laserBuffer st' = []
    /\ emitted st' =
         emitted st ++ match events with
                       | [] => []
                       | _ => [EmitLaserFires events]
                       end
    /\ Permutation events (List.concat (map snd (laserBuffer st)))
    /\ ((forall k, mhas k (laserBuffer st) = true -> arrayIndex k = None) ->
        events = List.concat (map snd (laserBuffer st)))
    /\ (forall id,
          firedBy id events =
          match mget id (laserBuffer st) with Some q => q | None => [] end)
    /\ (forall id, (List.length (firedBy id events) <= 2)%nat)
    /\ players st' = players st
    /\ disconnectedPlayers st' = disconnectedPlayers st
    /\ playerLastSeen st' = playerLastSeen st
    /\ timers st' = timers st.
Proof.
  intros st R events st'. destruct (reachable_bufferOk st R) as [ND A].
  subst st'. unfold flushLaserBuffer. cbv zeta. fold events.
  split; [reflexivity|]. split.
  { destruct events; simpl; [rewrite app_nil_r|]; reflexivity. }
  split.
  { unfold events. apply concat_Permutation, Permutation_map.
    apply propertyOrder_Permutation. }
  split.
  { intros N. unfold events. rewrite (propertyOrder_named _ N). reflexivity. }
  split.
  { intros id. unfold events. apply firedBy_propertyOrder; assumption. }
  split.
  { intros id. unfold events. rewrite (firedBy_propertyOrder id _ ND A).
    destruct (mget id (laserBuffer st)) as [q|] eqn:G; [|simpl; lia].
    destruct (Forall_mget _ _ _ _ A G) as (L & _). exact L. }
  destruct (0 <? Z.of_nat (List.length events)); repeat split.
Qed.


(** X6.  In a reachable state a laserFire event never changes the
    health of its own sender, nor the health of a player that has none
    left: a dead player stays at 0 until it respawns. *)
Theorem no_damage_to_sender_or_dead :
  forall now id data st k (p : Player T),
    reachable st ->
    mget k (players st) = Some p ->
    k = id \/ health p <= 0 ->
    option_map (@health T) (mget k (players (laserFire now id data st)))
    = Some (health p).
Proof.
  intros now id data st k p R G Why.
  destruct data as [d|]; [|simpl; rewrite G; reflexivity].
  destruct (laserFire_registries now id d st) as (Ep & _).
  rewrite Ep. unfold hitResult.
  destruct (startPosition d) as [a|]; [|rewrite G; reflexivity].
  destruct (endPosition d) as [b|]; [|rewrite G; reflexivity].
  destruct (likelyHit d); [|rewrite G; reflexivity].
  destruct (findClosest id a b (players st)) as [v|] eqn:F;
    [|rewrite G; reflexivity].
  destruct (findClosest_considered _ _ _ _ _ F) as (target & I & C & _).
  destruct (reachable_uniqueKeys st R) as (ND & _).
  pose proof (In_mget _ _ _ ND I) as Gv.
  unfold considered in C. simpl in C.
  apply negb_true_iff, orb_false_iff in C. destruct C as (Cs & Ch).
  apply String.eqb_neq in Cs. apply Z.leb_gt in Ch.
  assert (N : k <> v).
  { intros E. subst k. rewrite G in Gv. inversion Gv; subst target.
    destruct Why as [E|D]; [contradiction|lia]. }
  rewrite (applyDamage_other now id v st target k Gv N), G.
  destruct (_ && _); reflexivity.
Qed.

End ServerProperties.

Section LifecycleProperties.
Context {T : Type} `{Number T}.
Implicit Types (st : Server T) (id : Id) (now : Z).

(** X7.  The sweeper and an active player, in a reachable state: if
    the player's entry of [playerLastSeen] is more than [PLAYER_TIMEOUT]
    (10 s) old, the player leaves [players] and [playerLastSeen], its
    record goes unchanged into [disconnectedPlayers] and playerLeft is
    sent for it; otherwise it stays active with the same record and the
    same entry, and is not in [disconnectedPlayers]. *)
Theorem sweep_times_out_stale_players :
  forall now st id (p : Player T) (lastSeen : Z),
    reachable st -> mget id (players st) = Some p ->
    mget id (playerLastSeen st) = Some lastSeen ->
    let st' := sweep now st in
    (now - lastSeen > PLAYER_TIMEOUT ->
       mget id (players st') = None
       /\ mget id (disconnectedPlayers st') = Some p
       /\ mget id (playerLastSeen st') = None
       /\ In (EmitPlayerLeft id) (emitted st'))
    /\ (now - lastSeen <= PLAYER_TIMEOUT ->
          mget id (players st') = Some p
          /\ mget id (disconnectedPlayers st') = None
          /\ mget id (playerLastSeen st') = Some lastSeen).
Proof.
  intros now st id p lastSeen R G St.
  exact (sweep_active now st id p lastSeen R G St).
Qed.

(** X8.  The sweeper and a disconnected record, in a reachable state:
    if its timestamp is more than [DISCONNECTED_PLAYER_TIMEOUT] (60 s)
    old the id is afterwards in neither registry; otherwise the record
    stays, unchanged, in [disconnectedPlayers] only. *)
Theorem sweep_purges_after_grace :
  forall now st id (p : Player T),
    reachable st -> mget id (disconnectedPlayers st) = Some p ->
    let st' := sweep now st in
    mget id (players st') = None
    /\ (now - timestamp p > DISCONNECTED_PLAYER_TIMEOUT ->
          mget id (disconnectedPlayers st') = None)
    /\ (now - timestamp p <= DISCONNECTED_PLAYER_TIMEOUT ->
          mget id (disconnectedPlayers st') = Some p).
Proof.
  intros now st id p R G st'.
  destruct (sweep_disconnected now st id p R G) as (Ep & Ed).
  fold st' in Ep, Ed. split; [exact Ep|]. rewrite Ed. split; intros Age.
  - replace (now - timestamp p >? DISCONNECTED_PLAYER_TIMEOUT) with true
      by (symmetry; apply Z.gtb_lt; lia). reflexivity.
  - destruct (now - timestamp p >? DISCONNECTED_PLAYER_TIMEOUT) eqn:E;
      [|reflexivity].
    apply Z.gtb_lt in E. lia.
Qed.

(** X9.  Once the sweeper has timed a player out, the playerUpdate
    messages that still arrive on its channel are ignored: they leave
    the whole state as it is, and the player stays out of [players]. *)
Theorem updates_after_timeout_are_ignored :
  forall now now' st id (p : Player T) (lastSeen : Z) (data : UpdateData T),
    reachable st -> mget id (players st) = Some p ->
    mget id (playerLastSeen st) = Some lastSeen ->
    now - lastSeen > PLAYER_TIMEOUT ->
    playerUpdate now' id data (sweep now st) = sweep now st.
Proof.
  intros now now' st id p lastSeen data R G St Age.
  destruct (sweep_active now st id p lastSeen R G St) as (Old & _).
  destruct (Old Age) as (Gp & _).
  unfold playerUpdate. rewrite Gp. reflexivity.
Qed.

Lemma catchUp_emitted id (l : JsMap (Player T)) st :
  emitted
    (fold_left
       (fun s entry =>
          if String.eqb (fst entry) id then s
          else emit (SendPlayerJoined id (snd entry)) s) l st)
  = emitted st
    ++ map (fun entry => SendPlayerJoined id (snd entry))
           (filter (fun entry => negb (String.eqb (fst entry) id)) l).
Proof.
  revert st. induction l as [|e l IH]; intros st; simpl.
  - rewrite app_nil_r. reflexivity.
  - rewrite IH. destruct (String.eqb (fst e) id); simpl; [reflexivity|].
    rewrite <- app_assoc. reflexivity.
Qed.

(** X10.  The messages of a connection: one playerJoined broadcast
    about the new or restored record, then one playerJoined to the
    newcomer for every other active player, in the order of the map, and
    none about the newcomer itself. *)
Theorem connection_messages :
  forall now id st,
    let record :=
      match mget id (disconnectedPlayers st) with
      | Some previousState => set_timestamp now previousState
      | None => newPlayer now id
      end in
    let st' := onConnection now id st in
    emitted st' =
      emitted st
      ++ BroadcastPlayerJoined id (joinedPayload id record)
         :: map (fun entry => SendPlayerJoined id (snd entry))
                (filter (fun entry => negb (String.eqb (fst entry) id))
                        (players st'))
    /\ players st' = mset id record (players st).
Proof.
  intros now id st record st'.
  destruct (onConnection_registries now id st) as (Ep & _).
  fold st' record in Ep. split; [|exact Ep]. rewrite Ep.
  subst st'. unfold onConnection. cbv zeta. rewrite catchUp_emitted.
  destruct (mget id (disconnectedPlayers st)) as [prev|]; simpl;
    rewrite mget_mset, String.eqb_refl; simpl;
    rewrite <- app_assoc; reflexivity.
Qed.

(** X11.  The state broadcast, in a reachable state.  The message lists
    the active players other than one whose id is [__proto__] (that
    assignment creates no property of the payload), each with the view
    of its record, whose id is the key it is listed under; no
    disconnected player is listed.  The order is that of the payload's
    own properties: ids that are array indices first, by ascending
    numeric value, then the other ids in the order of [players] (so with
    no array-index id, the order of [players]).  Exactly one
    playerUpdate message is sent when at least one player is listed,
    and nothing otherwise.  The state is otherwise unchanged. *)
Theorem state_sync_snapshot :
  forall st,
    reachable st ->
    let st' := broadcastState st in
    let listed (entry : Id * Player T) :=
      negb (String.eqb (fst entry) "__proto__") in
    let views :=
      map (fun entry => (fst entry, viewOf (snd entry)))
          (filter listed (players st)) in
    let snapshot := propertyOrder views in
    emitted st' =
      emitted st ++ match views with
                    | [] => []
                    | _ => [EmitPlayerUpdate snapshot]
                    end
    /\ Permutation snapshot views
    /\ ((forall k, mhas k (players st) = true -> arrayIndex k = None) ->
        snapshot = views)
    /\ (forall id,
          mget id snapshot =
          if String.eqb id "__proto__" then None
          else option_map viewOf (mget id (players st)))
    /\ (forall id v, mget id snapshot = Some v ->
                     view_id v = id
                     /\ mget id (disconnectedPlayers st) = None)
    /\ players st' = players st
    /\ disconnectedPlayers st' = disconnectedPlayers st
    /\ playerLastSeen st' = playerLastSeen st
    /\ laserBuffer st' = laserBuffer st
    /\ timers st' = timers st.
Proof.
  intros st R st' listed views snapshot.
  destruct (reachable_uniqueKeys st R) as (ND & _).
  assert (NDf : NoDup (mkeys (filter listed (players st))))
    by (apply NoDup_filter_keys; exact ND).
  assert (NDv : NoDup (mkeys views))
    by (unfold views; rewrite mkeys_map_values; exact NDf).
  assert (F : fold_left
                (fun obj entry =>
                   assignProperty (fst entry) (viewOf (snd entry)) obj)
                (players st) [] = views).
  { rewrite (fold_assignProperty (@viewOf T) (players st) [] ND);
      [reflexivity | intros; reflexivity]. }
  assert (G : forall id,
             mget id snapshot =
             if String.eqb id "__proto__" then None
             else option_map viewOf (mget id (players st))).
  { intros id. unfold snapshot.
    rewrite (mget_Permutation id views (propertyOrder views) NDv
               (Permutation_sym (propertyOrder_Permutation views))).
    unfold views. rewrite mget_map_values, (mget_filter listed id _ ND).
    destruct (mget id (players st)) as [p|]; unfold listed; simpl;
      destruct (String.eqb id "__proto__"); reflexivity. }
  split.
  { subst st'. unfold broadcastState. cbv zeta. rewrite F. fold snapshot.
    pose proof (propertyOrder_Permutation views) as P. fold snapshot in P.
    destruct views as [|e l]; [simpl; rewrite app_nil_r; reflexivity|].
    reflexivity. }
  split; [apply propertyOrder_Permutation|].
  split.
  { intros N. apply propertyOrder_named. intros k M. apply N.
    unfold views in M. unfold mhas in *.
    rewrite mget_map_values, (mget_filter listed k _ ND) in M.
    destruct (mget k (players st)); [reflexivity|discriminate]. }
  split; [exact G|].
  split.
  { intros id v Gs. rewrite G in Gs.
    destruct (String.eqb id "__proto__"); [discriminate|].
    destruct (mget id (players st)) as [p|] eqn:Gp; [|discriminate].
    simpl in Gs. inversion Gs; subst v. simpl. split.
    - destruct (reachable_recordsOk st R) as [Ap _].
      destruct (Forall_mget _ _ _ _ Ap Gp) as (I & _). exact I.
    - pose proof (reachable_disjoint st R id) as Dj.
      unfold mhas in Dj. rewrite Gp in Dj. simpl in Dj.
      destruct (mget id (disconnectedPlayers st));
        [discriminate|reflexivity]. }
  subst st'. unfold broadcastState. cbv zeta.
  destruct (0 <? _); repeat split.
Qed.

(** X12.  A playerUpdate message changes no record but its sender's,
    adds nobody to [players], and leaves [disconnectedPlayers] and the
    timers alone.  Without the respawn flag it leaves the health and the
    kills of every player as they are, whatever the payload holds; with
    it the sender's health becomes 100 and its kills 0. *)
Theorem update_touches_only_sender :
  forall now id (data : UpdateData T) st,
    let st' := playerUpdate now id data st in
    (forall k, k <> id -> mget k (players st') = mget k (players st))
    /\ (forall k, mhas k (players st') = mhas k (players st))
    /\ (isRespawning data = false ->
        forall k,
          option_map (@health T) (mget k (players st'))
          = option_map (@health T) (mget k (players st))
          /\ option_map (@kills T) (mget k (players st'))
             = option_map (@kills T) (mget k (players st)))
    /\ (isRespawning data = true ->
        option_map (@health T) (mget id (players st'))
        = option_map (fun _ => 100) (mget id (players st))
        /\ option_map (@kills T) (mget id (players st'))
           = option_map (fun _ => 0) (mget id (players st)))
    /\ disconnectedPlayers st' = disconnectedPlayers st
    /\ timers st' = timers st.
Proof.
  intros now id data st st'.
  destruct (playerUpdate_registries now id data st)
    as (Ep & Ed & _ & _ & Et & _).
  fold st' in Ep, Ed, Et.
  split.
  { intros k N. rewrite Ep, !mget_mupdate.
    destruct (String.eqb_spec k id); [contradiction|reflexivity]. }
  split; [intros k; rewrite Ep, !mhas_mupdate; reflexivity|].
  split.
  { intros NR k. rewrite Ep. split.
    - rewrite mupdate_preserves
        by (intros p; rewrite applyUpdate_health, NR; reflexivity).
      apply mupdate_preserves. reflexivity.
    - rewrite mupdate_preserves
        by (intros p; rewrite applyUpdate_kills, NR; reflexivity).
      apply mupdate_preserves. reflexivity. }
  split; [|split; assumption].
  intros RS. rewrite Ep, !mget_mupdate, !String.eqb_refl.
  destruct (mget id (players st)) as [p|]; simpl; [|split; reflexivity].
  rewrite applyUpdate_health, applyUpdate_kills, RS. split; reflexivity.
Qed.

(** X13.  Disconnecting an active player and connecting the same id
    again gives back its record: the timestamp is the time of the new
    connection, and the id, position, rotation, velocity, nickname,
    colour, health, kills and [recentlyHit] flag are as they were.  The
    id is no longer in [disconnectedPlayers], and no other player's
    record, active or disconnected, is affected. *)
Theorem disconnect_then_reconnect :
  forall now id st (p : Player T),
    mget id (players st) = Some p ->
    let st' := onConnection now id (onDisconnect id st) in
    mget id (players st') = Some (set_timestamp now p)
    /\ (exists restored,
          mget id (players st') = Some restored
          /\ timestamp restored = now
          /\ playerId restored = playerId p
          /\ position restored = position p
          /\ rotation restored = rotation p
          /\ velocity restored = velocity p
          /\ nickname restored = nickname p
          /\ colorIndex restored = colorIndex p
          /\ health restored = health p
          /\ kills restored = kills p
          /\ recentlyHit restored = recentlyHit p)
    /\ mget id (disconnectedPlayers st') = None
    /\ (forall k, k <> id ->
          mget k (players st') = mget k (players st)
          /\ mget k (disconnectedPlayers st')
             = mget k (disconnectedPlayers st)).
Proof.
  intros now id st p G st'.
  destruct (onDisconnect_registries id st) as (Dp & Dd & _).
  destruct (onConnection_registries now id (onDisconnect id st))
    as (Cp & Cd & _).
  fold st' in Cp, Cd. rewrite G in Dd.
  assert (Gd : mget id (disconnectedPlayers (onDisconnect id st)) = Some p).
  { rewrite Dd, mget_mset, String.eqb_refl. reflexivity. }
  rewrite Gd in Cp, Cd. rewrite Cp, Cd, Dp, Dd.
  assert (E : mget id (mset id (set_timestamp now p)
                            (mdelete id (players st)))
              = Some (set_timestamp now p))
    by (rewrite mget_mset, String.eqb_refl; reflexivity).
  split; [exact E|].
  split.
  { exists (set_timestamp now p). split; [exact E|].
    destruct p. repeat split. }
  split; [rewrite mget_mdelete, String.eqb_refl; reflexivity|].
  intros k N. rewrite mget_mset, !mget_mdelete, mget_mset.
  destruct (String.eqb_spec k id); [contradiction|]. split; reflexivity.
Qed.

End LifecycleProperties.

Section RepeatedHits.
Context {T : Type} `{Number T}.
Implicit Types (st : Server T) (id : Id) (now : Z).

(** X14.  [n] hits in a row by an active shooter on another player
    whose health is [h >= 0] leave the victim with health
    [max 0 (h - 5 n)], and raise the shooter's kills by exactly 1 if the
    victim was alive and the hits brought it to 0, and by nothing
    otherwise: the hits after the killing one give no further credit. *)
Theorem repeated_hits_credit_once :
  forall (n : nat) now id v st (target shooter : Player T),
    v <> id ->
    mget v (players st) = Some target ->
    mget id (players st) = Some shooter ->
    0 <= health target ->
    let st' := hitTimes n now id v st in
    option_map (@health T) (mget v (players st'))
    = Some (Z.max 0 (health target - 5 * Z.of_nat n))
    /\ option_map (@kills T) (mget id (players st'))
       = Some (kills shooter
               + (if (0 <? health target) && (health target <=? 5 * Z.of_nat n)
                  then 1 else 0)).
Proof.
  induction n as [|n IH]; intros now id v st target shooter N Gv Gs Hpos.
  - simpl. rewrite Gv, Gs. simpl. split.
    + f_equal. lia.
    + f_equal.
      destruct (Z.ltb_spec 0 (health target)),
               (Z.leb_spec (health target) 0); simpl; lia.
  - cbv zeta. simpl hitTimes.
    pose proof (applyDamage_target now id v st) as Ev.
    rewrite Gv in Ev. simpl in Ev.
    destruct (String.eqb_spec v id) as [E|_]; [contradiction|].
    pose proof (applyDamage_other now id v st target id Gv
                  (not_eq_sym N)) as Es.
    rewrite String.eqb_refl, andb_true_r, Gs in Es. simpl in Es.
    set (kill := (0 <? health target) && (Z.max 0 (health target - 5) =? 0))
      in *.
    assert (Es' : mget id (players (applyDamage now id v st))
                  = Some (if kill then set_kills (kills shooter + 1) shooter
                          else shooter)).
    { rewrite Es. destruct kill; reflexivity. }
    specialize (IH now id v (applyDamage now id v st) _ _ N Ev Es').
    cbv zeta in IH.
    assert (H1 : health
                   (set_recentlyHit true
                      (if kill
                       then set_kills 0
                              (set_health (Z.max 0 (health target - 5)) target)
                       else set_health (Z.max 0 (health target - 5)) target))
                 = Z.max 0 (health target - 5)).
    { destruct kill; reflexivity. }
    rewrite H1 in IH. destruct IH as (IHh & IHk); [lia|].
    rewrite IHh, IHk. split.
    + f_equal. lia.
    + f_equal.
      assert (K : kills (if kill then set_kills (kills shooter + 1) shooter
                         else shooter)
                  = kills shooter + (if kill then 1 else 0)).
      { destruct kill; simpl; lia. }
      rewrite K. unfold kill.
      destruct (Z.ltb_spec 0 (health target)),
               (Z.eqb_spec (Z.max 0 (health target - 5)) 0),
               (Z.ltb_spec 0 (Z.max 0 (health target - 5))),
               (Z.leb_spec (Z.max 0 (health target - 5)) (5 * Z.of_nat n)),
               (Z.leb_spec (health target) (5 * Z.of_nat (S n)));
        simpl; lia.
Qed.

End RepeatedHits.

(* ================================================================= *)
(** ** Further properties of the segment distance *)

Section SegmentProperties.
Local Open Scope R_scope.

(** X15.  Over the reals the distance does not depend on the direction
    of the segment: swapping its start and end gives the same value. *)
Theorem pointLineDistance_symmetric :
  forall p a b : Vec3 R, pointLineDistance p a b = pointLineDistance p b a.
Proof.
  intros p a b.
  destruct (pointLineDistance_minimal p a b) as ((q & Sq & Eq) & Min).
  destruct (pointLineDistance_minimal p b a) as ((q' & Sq' & Eq') & Min').
  apply Rle_antisym.
  - rewrite Eq'. apply Min. apply onSegment_swap. exact Sq'.
  - rewrite Eq. apply Min'. apply onSegment_swap. exact Sq.
Qed.

(** X16.  Over the reals the distance is 0 exactly for the points of
    the segment. *)
Theorem pointLineDistance_zero_iff_on_segment :
  forall p a b : Vec3 R, pointLineDistance p a b = 0 <-> onSegment a b p.
Proof.
  intros p a b.
  destruct (pointLineDistance_minimal p a b) as ((q & Sq & Eq) & Min).
  split.
  - intros Z0. rewrite Z0 in Eq. symmetry in Eq.
    apply euclidean_zero in Eq. subst q. exact Sq.
  - intros Sp. apply Rle_antisym.
    + replace 0 with (euclidean p p) by (apply euclidean_zero; reflexivity).
      apply Min. exact Sp.
    + rewrite Eq. apply euclidean_nonneg.
Qed.

(** X17.  Over the reals the distance is never negative and never more
    than the distance from the point to either end of the segment. *)
Theorem pointLineDistance_bounds :
  forall p a b : Vec3 R,
    0 <= pointLineDistance p a b
    /\ pointLineDistance p a b <= euclidean p a
    /\ pointLineDistance p a b <= euclidean p b.
Proof.
  intros p a b.
  destruct (pointLineDistance_minimal p a b) as ((q & Sq & Eq) & Min).
  split; [rewrite Eq; apply euclidean_nonneg|].
  split; apply Min; [apply onSegment_start | apply onSegment_end].
Qed.

End SegmentProperties.

(* ================================================================= *)
(** ** The further properties on the scenarios *)

Lemma reachable_twoPlayers : reachable twoPlayers.
Proof. eexists. reflexivity. Qed.

Lemma reachable_hitTwice : reachable hitTwice.
Proof. eexists. reflexivity. Qed.

Lemma reachable_leftAtNine : reachable leftAtNine.
Proof. eexists. reflexivity. Qed.

Lemma twoPlayers_A :
  mget "A" (players twoPlayers) = Some (newPlayer (T := float) 0 "A").
Proof. vm_compute. reflexivity. Qed.

Lemma twoPlayers_B :
  mget "B" (players twoPlayers) = Some (newPlayer (T := float) 0 "B").
Proof. vm_compute. reflexivity. Qed.

Lemma twoPlayers_A_seen : mget "A" (playerLastSeen twoPlayers) = Some 0.
Proof. vm_compute. reflexivity. Qed.

Lemma record_ids_match_keys_witness :
  playerId (newPlayer (T := float) 0 "A") = "A"%string.
Proof.
  apply (record_ids_match_keys twoPlayers "A"%string _ reachable_twoPlayers).
  left. exact twoPlayers_A.
Defined.

Lemma kills_nonnegative_health_in_steps_witness :
  0 <= kills (newPlayer (T := float) 0 "A")
  /\ exists n, 0 <= n <= 20 /\ health (newPlayer (T := float) 0 "A") = 5 * n.
Proof.
  apply (kills_nonnegative_health_in_steps twoPlayers "A"%string _
           reachable_twoPlayers).
  left. exact twoPlayers_A.
Defined.

Lemma laser_queue_bounded_witness :
  (List.length [mkLaserEvent shotData "A"; mkLaserEvent shotData "A"] <= 2)%nat
  /\ Forall (fun e => shooterId e = "A"%string)
            [mkLaserEvent shotData "A"; mkLaserEvent shotData "A"].
Proof.
  apply (laser_queue_bounded hitTwice "A"%string _ reachable_hitTwice).
  vm_compute. reflexivity.
Defined.

Lemma reachable_numberedShooters : reachable numberedShooters.
Proof. eexists. reflexivity. Qed.

Lemma reachable_protoPlayer : reachable protoPlayer.
Proof. eexists. reflexivity. Qed.

(** The shooters fired in the order b, 10, 2; the message lists the
    events in the order 2, 10, b. *)
Lemma flush_sends_two_per_shooter_at_most_witness :
  laserBuffer (flushLaserBuffer numberedShooters) = []
  /\ emitted (flushLaserBuffer numberedShooters)
     = emitted numberedShooters
       ++ [EmitLaserFires [mkLaserEvent shotData "2";
                           mkLaserEvent shotData "10";
                           mkLaserEvent shotData "b"]]
  /\ firedBy "10"
       (List.concat (map snd (propertyOrder (laserBuffer numberedShooters))))
     = [mkLaserEvent shotData "10"].
Proof.
  destruct (flush_sends_two_per_shooter_at_most numberedShooters
              reachable_numberedShooters)
    as (E & M & _ & _ & F & _).
  split; [exact E|]. split.
  - rewrite M. f_equal.
  - rewrite (F "10"%string). vm_compute. reflexivity.
Defined.


Lemma no_damage_to_sender_or_dead_witness :
  option_map (@health float)
    (mget "A" (players (laserFire 5 "A" (Some shotData) twoPlayers)))
  = Some 100.
Proof.
  apply (no_damage_to_sender_or_dead 5 "A"%string (Some shotData) twoPlayers
           "A"%string (newPlayer 0 "A") reachable_twoPlayers twoPlayers_A).
  left. reflexivity.
Defined.

Lemma sweep_times_out_stale_players_witness :
  mget "A" (players (sweep 20000 twoPlayers)) = None
  /\ mget "A" (disconnectedPlayers (sweep 20000 twoPlayers))
     = Some (newPlayer (T := float) 0 "A")
  /\ mget "A" (playerLastSeen (sweep 20000 twoPlayers)) = None
  /\ In (EmitPlayerLeft "A") (emitted (sweep 20000 twoPlayers)).
Proof.
  apply (proj1 (sweep_times_out_stale_players 20000 twoPlayers "A"%string
                  (newPlayer 0 "A") 0 reachable_twoPlayers twoPlayers_A
                  twoPlayers_A_seen)).
  reflexivity.
Defined.

Lemma leftAtNine_P :
  exists p : Player float,
    mget "P" (disconnectedPlayers leftAtNine) = Some p /\ timestamp p = 0.
Proof. vm_compute. eexists. split; reflexivity. Qed.

Lemma sweep_purges_after_grace_witness :
  mget "P" (players (sweep 65000 leftAtNine)) = None
  /\ mget "P" (disconnectedPlayers (sweep 65000 leftAtNine)) = None.
Proof.
  destruct leftAtNine_P as (p & G & Ts).
  destruct (sweep_purges_after_grace 65000 leftAtNine "P"%string p
              reachable_leftAtNine G) as (Ep & Old & _).
  split; [exact Ep|]. apply Old. rewrite Ts. reflexivity.
Defined.

Lemma updates_after_timeout_are_ignored_witness :
  playerUpdate 20500 "A" keepAlive (sweep 20000 twoPlayers)
  = sweep 20000 twoPlayers.
Proof.
  apply (updates_after_timeout_are_ignored 20000 20500 twoPlayers "A"%string
           (newPlayer 0 "A") 0 keepAlive reachable_twoPlayers twoPlayers_A
           twoPlayers_A_seen).
  reflexivity.
Defined.

(** Players 10 and 2 are listed before b, and 2 before 10; the player
    whose id is [__proto__] is not listed. *)
Lemma state_sync_snapshot_witness :
  mkeys (propertyOrder
           (map (fun entry => (fst entry, viewOf (snd entry)))
                (filter (fun entry =>
                           negb (String.eqb (fst entry) "__proto__"))
                        (players numberedShooters))))
  = ["2"; "10"; "b"]%string
  /\ emitted (broadcastState protoOnly) = emitted protoOnly.
Proof.
  split.
  - destruct (state_sync_snapshot numberedShooters
                reachable_numberedShooters) as (_ & P & _).
    vm_compute. reflexivity.
  - destruct (state_sync_snapshot protoOnly
                (ex_intro _ [(0, Connect "__proto__")] eq_refl))
      as (M & _).
    rewrite M. vm_compute. reflexivity.
Defined.

Lemma update_touches_only_sender_witness :
  option_map (@health float)
    (mget "B" (players (playerUpdate 7 "B" keepAlive twoPlayers)))
  = option_map (@health float) (mget "B" (players twoPlayers))
  /\ option_map (@kills float)
       (mget "B" (players (playerUpdate 7 "B" keepAlive twoPlayers)))
     = option_map (@kills float) (mget "B" (players twoPlayers)).
Proof.
  destruct (update_touches_only_sender 7 "B"%string keepAlive twoPlayers)
    as (_ & _ & NR & _).
  exact (NR eq_refl "B"%string).
Defined.

Lemma disconnect_then_reconnect_witness :
  exists restored : Player float,
    mget "A" (players (onConnection 9 "A" (onDisconnect "A" twoPlayers)))
    = Some restored
    /\ timestamp restored = 9
    /\ health restored = 100
    /\ kills restored = 0.
Proof.
  destruct (disconnect_then_reconnect 9 "A"%string twoPlayers
              (newPlayer 0 "A") twoPlayers_A)
    as (_ & (restored & G & Ts & _ & _ & _ & _ & _ & _ & Hh & Kk & _) & _).
  exists restored. repeat split; assumption.
Defined.

Lemma repeated_hits_credit_once_witness :
  option_map (@health float)
    (mget "B" (players (hitTimes 25 3 "A" "B" twoPlayers))) = Some 0
  /\ option_map (@kills float)
       (mget "A" (players (hitTimes 25 3 "A" "B" twoPlayers))) = Some 1.
Proof.
  assert (N : "B"%string <> "A"%string) by discriminate.
  assert (P : 0 <= health (newPlayer (T := float) 0 "B"))
    by (simpl; lia).
  destruct (repeated_hits_credit_once 25 3 "A"%string "B"%string twoPlayers
              (newPlayer 0 "B") (newPlayer 0 "A") N twoPlayers_B
              twoPlayers_A P) as (Eh & Ek).
  split; [rewrite Eh | rewrite Ek]; reflexivity.
Defined.

Lemma pointLineDistance_zero_iff_on_segment_witness :
  pointLineDistance (T := R) (vecZ 1 0 0) (vecZ 1 0 0) (vecZ 2 0 0) = 0%R.
Proof.
  apply (proj2 (pointLineDistance_zero_iff_on_segment
                  (vecZ 1 0 0) (vecZ 1 0 0) (vecZ 2 0 0))).
  apply onSegment_start.
Defined.
